(** * StreamPump: a push-to-pull stream adapter with backpressure

    Shallow embedding of the [StreamPump] class of [src/test.js] and of the
    two objects it talks to: the push source ([this.stream], a Node event
    emitter with optional [pause], [resume] and [destroy] methods) and the
    pull sink ([this.controller], the controller of a web [ReadableStream]).

    The adapter, the source and the sink are mutable JavaScript objects that
    reference each other, so the embedding keeps all three in one [World]
    and threads it through a state-and-exception monad: a [throw] keeps the
    mutations made before it, as it does in JavaScript. *)

From Stdlib Require Import ZArith List String Bool Lia.
From Stdlib Require Import Strings.Byte.
Import ListNotations.

Local Open Scope string_scope.
Local Open Scope list_scope.
Local Open Scope Z_scope.

(** ** JavaScript values that appear in the adapter *)

(** Exceptions and error objects. *)
Inductive Exn : Type :=
| ReferenceError (message : string)
| TypeError (message : string)
| Error (message : string).

(** A JavaScript value that can reach the adapter: a chunk handed to the
    [data] listener, the argument of an [error] event, a cancellation reason.
    The adapter distinguishes [Uint8Array] instances (which include
    [Buffer]) from everything else, and hands everything else to
    [Buffer.from]. *)
Inductive Value : Type :=
| VUint8Array (bytes : list byte)
| VString (s : string)
| VArrayBuffer (bytes : list byte)
| VArray (elements : list Z)
| VNumber (n : Z)
| VBoolean (b : bool)
| VNull
| VUndefined
| VError (e : Exn).

(** [Buffer.from(array)] stores every element modulo 256. *)
Definition byte_of_Z (z : Z) : byte :=
  match Byte.of_N (Z.to_N (Z.land z 255)) with
  | Some b => b
  | None => x00
  end.

(** [Buffer.from(value)]: a string, a buffer, an [ArrayBuffer] or an array
    gives a buffer; a number, a boolean, [null], [undefined] and an error
    object raise a [TypeError]. *)
Definition Buffer_from (chunk : Value) : Exn + list byte :=
  match chunk with
  | VUint8Array bytes => inr bytes
  | VString s => inr (list_byte_of_string s)
  | VArrayBuffer bytes => inr bytes
  | VArray elements => inr (map byte_of_Z elements)
  | VNumber _ | VBoolean _ | VNull | VUndefined | VError _ =>
      inl (TypeError "The first argument must be of type string or an instance of Buffer, ArrayBuffer, or Array or an Array-like Object.")
  end.

(** [chunk instanceof Uint8Array ? chunk : Buffer.from(chunk)] *)
Definition to_bytes (chunk : Value) : Exn + list byte :=
  match chunk with
  | VUint8Array bytes => inr bytes
  | _ => Buffer_from chunk
  end.

Definition byteLength (bytes : list byte) : Z := Z.of_nat (List.length bytes).

(** [x || 0] for a value that is a number, [null] or [undefined]. *)
Definition or_zero (x : option Z) : Z :=
  match x with
  | Some n => n
  | None => 0
  end.

(** ** The source: an event emitter with optional flow-control methods *)

Inductive EventName : Type := EvData | EvError | EvEnd | EvClose.

(** The three bound methods the constructor creates
    ([this.enqueue = this.enqueue.bind(this)] and so on); [this.close] is
    one function object, registered for both [end] and [close]. *)
Inductive Handler : Type := HEnqueue | HError | HClose.

Record Listener : Type := mkListener {
  l_event : EventName;
  l_handler : Handler;
  l_once : bool
}.

Inductive SourceCall : Type :=
| SrcPause
| SrcResume
| SrcDestroy (reason : Value).

Record Source : Type := mkSource {
  readableHighWaterMark : option Z;   (* [undefined] or a number *)
  has_pause : bool;                   (* is [stream.pause] defined *)
  has_resume : bool;
  has_destroy : bool;
  readable : bool;                    (* [stream.readable] *)
  listeners : list Listener;          (* in registration order *)
  src_calls : list SourceCall         (* the adapter's calls, oldest first *)
}.

(** ** The sink: the controller of the readable stream

    The sink is kept as the list of calls it received.  The controller's
    methods are taken to return normally: the adapter reaches them only
    through a handle it drops at the first [close] or [error], or through
    listeners it removes when a chunk fails to convert or the consumer
    cancels.  The one state in which the program's own controller throws
    and the adapter can still see it, a desired size that reads [null], is
    treated apart, in [WebStream]. *)

Inductive SinkCall : Type :=
| SEnqueue (bytes : list byte)
| SError (e : Value)
| SClose.

Record Sink : Type := mkSink {
  desiredSize : option Z;             (* a number or [null] *)
  sink_calls : list SinkCall          (* calls received, oldest first *)
}.

(** The reference stored in [this.controller]. *)
Inductive Controller : Type := TheController.

(** ** The world: the adapter's fields and the two objects it references *)

Record World : Type := mkWorld {
  highWaterMark : Z;
  accumalatedSize : Z;
  controller : option Controller;     (* [undefined] until [start], and after [delete] *)
  stream : Source;                    (* the object behind [this.stream] *)
  sink : Sink                         (* the object behind the controller *)
}.

Definition set_controller (c : option Controller) (w : World) : World :=
  mkWorld (highWaterMark w) (accumalatedSize w) c (stream w) (sink w).

Definition set_stream (s : Source) (w : World) : World :=
  mkWorld (highWaterMark w) (accumalatedSize w) (controller w) s (sink w).

Definition set_sink (k : Sink) (w : World) : World :=
  mkWorld (highWaterMark w) (accumalatedSize w) (controller w) (stream w) k.

Definition set_listeners (ls : list Listener) (s : Source) : Source :=
  mkSource (readableHighWaterMark s) (has_pause s) (has_resume s)
           (has_destroy s) (readable s) ls (src_calls s).

Definition log_src_call (c : SourceCall) (s : Source) : Source :=
  mkSource (readableHighWaterMark s) (has_pause s) (has_resume s)
           (has_destroy s) (readable s) (listeners s) (src_calls s ++ [c]).

Definition set_readable (b : bool) (s : Source) : Source :=
  mkSource (readableHighWaterMark s) (has_pause s) (has_resume s)
           (has_destroy s) b (listeners s) (src_calls s).

Definition log_sink_call (c : SinkCall) (k : Sink) : Sink :=
  mkSink (desiredSize k) (sink_calls k ++ [c]).

Definition set_desiredSize (d : option Z) (k : Sink) : Sink :=
  mkSink d (sink_calls k).

(** ** State and exceptions *)

Inductive Outcome (A : Type) : Type :=
| Returned (a : A) (w : World)
| Thrown (e : Exn) (w : World).
Arguments Returned {A} a w.
Arguments Thrown {A} e w.

Definition M (A : Type) : Type := World -> Outcome A.

Definition ret {A} (a : A) : M A := fun w => Returned a w.

Definition throw {A} (e : Exn) : M A := fun w => Thrown e w.

Definition bind {A B} (m : M A) (k : A -> M B) : M B :=
  fun w =>
    match m w with
    | Returned a w' => k a w'
    | Thrown e w' => Thrown e w'
    end.

(** [try { body } catch (error) { handler(error) }] *)
Definition try_catch {A} (body : M A) (handler : Exn -> M A) : M A :=
  fun w =>
    match body w with
    | Returned a w' => Returned a w'
    | Thrown e w' => handler e w'
    end.

Definition get : M World := fun w => Returned w w.

Definition modify (f : World -> World) : M unit := fun w => Returned tt (f w).

Definition lift {A} (r : Exn + A) : M A :=
  match r with
  | inr a => ret a
  | inl e => throw e
  end.

Notation "x <- m ;; k" := (bind m (fun x => k))
  (at level 61, m at next level, right associativity).
Notation "m ;;; k" := (bind m (fun _ => k))
  (at level 61, right associativity).

Definition world_of {A} (o : Outcome A) : World :=
  match o with
  | Returned _ w => w
  | Thrown _ w => w
  end.

Definition returns {A} (o : Outcome A) : bool :=
  match o with
  | Returned _ _ => true
  | Thrown _ _ => false
  end.

(** ** Methods of the source and of the sink *)

Definition event_eqb (a b : EventName) : bool :=
  match a, b with
  | EvData, EvData | EvError, EvError | EvEnd, EvEnd | EvClose, EvClose => true
  | _, _ => false
  end.

Definition handler_eqb (a b : Handler) : bool :=
  match a, b with
  | HEnqueue, HEnqueue | HError, HError | HClose, HClose => true
  | _, _ => false
  end.

(** Does listener [l] stand for function [h] registered on event [ev]?  A
    [once] wrapper matches the function it wraps. *)
Definition listens (ev : EventName) (h : Handler) (l : Listener) : bool :=
  event_eqb (l_event l) ev && handler_eqb (l_handler l) h.

Definition listener_eqb (a b : Listener) : bool :=
  listens (l_event a) (l_handler a) b && Bool.eqb (l_once a) (l_once b).

(** [removeListener] drops one matching entry, the most recently added. *)
Fixpoint remove_last (p : Listener -> bool) (ls : list Listener) : list Listener :=
  match ls with
  | [] => []
  | l :: rest =>
      if existsb p rest then l :: remove_last p rest
      else if p l then rest else l :: rest
  end.

Definition update_stream (f : Source -> Source) : M unit :=
  modify (fun w => set_stream (f (stream w)) w).

Definition update_sink (f : Sink -> Sink) : M unit :=
  modify (fun w => set_sink (f (sink w)) w).

(** [on], [once] and [off] as registrations.  What a Node readable does to
    itself when a [data] listener is added (it starts flowing) is the
    source's own doing and is not recorded in [src_calls], which holds the
    calls the adapter makes. *)
Definition stream_on (ev : EventName) (h : Handler) : M unit :=
  update_stream (fun s => set_listeners (listeners s ++ [mkListener ev h false]) s).

Definition stream_once (ev : EventName) (h : Handler) : M unit :=
  update_stream (fun s => set_listeners (listeners s ++ [mkListener ev h true]) s).

Definition stream_off (ev : EventName) (h : Handler) : M unit :=
  update_stream (fun s => set_listeners (remove_last (listens ev h) (listeners s)) s).

(** Calling a method the object does not have raises a [TypeError]. *)
Definition stream_pause : M unit :=
  w <- get ;;
  if has_pause (stream w) then update_stream (log_src_call SrcPause)
  else throw (TypeError "this.stream.pause is not a function").

Definition stream_resume : M unit :=
  w <- get ;;
  if has_resume (stream w) then update_stream (log_src_call SrcResume)
  else throw (TypeError "this.stream.resume is not a function").

(** A destroyed stream is no longer readable; the events a destroyed Node
    stream fires are fired later, not from inside [destroy]. *)
Definition stream_destroy (reason : Value) : M unit :=
  w <- get ;;
  if has_destroy (stream w)
  then update_stream (fun s => set_readable false (log_src_call (SrcDestroy reason) s))
  else throw (TypeError "this.stream.destroy is not a function").

Definition controller_enqueue (bytes : list byte) : M unit :=
  update_sink (log_sink_call (SEnqueue bytes)).

Definition controller_error (e : Value) : M unit :=
  update_sink (log_sink_call (SError e)).

Definition controller_close : M unit :=
  update_sink (log_sink_call SClose).

(** ** The module scope of [test.js] *)

(** Names the module binds: its imports and its top-level declarations. *)
Definition module_bindings : list string :=
  [ "assert"; "createServer"; "test"; "fs"; "path"; "File"; "Readable";
    "fileURLToPath"; "env";
    "testFile"; "createBlobFromPath"; "resolveFilePath"; "convertRequest";
    "StreamPump" ].

(** Globals of the Node runtime that the module refers to. *)
Definition node_globals : list string :=
  [ "FormData"; "Headers"; "Request"; "ReadableStream"; "URL"; "fetch";
    "console"; "Buffer"; "Uint8Array"; "Error"; "Promise"; "Symbol";
    "Object"; "Array"; "Number"; "parseInt" ].

(** Evaluating an identifier that is bound nowhere raises a
    [ReferenceError]. *)
Definition resolve (id : string) : Exn + unit :=
  if existsb (String.eqb id) (module_bindings ++ node_globals)
  then inr tt
  else inl (ReferenceError (String.append id " is not defined")).

(** [a || b] where [a] is a number or [undefined] and evaluating [b] may
    raise: [undefined] and [0] are falsy, and [b] is evaluated only then. *)
Definition js_or (a : option Z) (b : Exn + Z) : Exn + Z :=
  match a with
  | Some n => if n =? 0 then b else inr n
  | None => b
  end.

(** ** The adapter *)

Module StreamPump.

Definition conversion_message : string :=
  "Could not create Buffer, chunk must be of type string or an instance of Buffer, ArrayBuffer, or Array or an Array-like Object".

(** [constructor(stream)].  [readable_default] is what
    [new Stream.Readable().readableHighWaterMark] evaluates to once
    [Stream] is resolved; [heap_sink] is the sink object of the world the
    adapter is created in. *)
Definition constructor (readable_default : Z) (heap_sink : Sink)
    (stream : Source) : Exn + World :=
  match
    js_or (readableHighWaterMark stream)
          (match resolve "Stream" with
           | inr _ => inr readable_default
           | inl e => inl e
           end)
  with
  | inr hwm => inr (mkWorld hwm 0 None stream heap_sink)
  | inl e => inl e
  end.

(** [size(chunk)]: [chunk?.byteLength || 0] *)
Definition size (chunk : Value) : Z :=
  match chunk with
  | VUint8Array bytes | VArrayBuffer bytes => byteLength bytes
  | _ => 0
  end.

Definition start (c : Controller) : M unit :=
  modify (set_controller (Some c)) ;;;
  stream_on EvData HEnqueue ;;;
  stream_once EvError HError ;;;
  stream_once EvEnd HClose ;;;
  stream_once EvClose HClose.

Definition pause : M unit :=
  w <- get ;;
  if has_pause (stream w) then stream_pause else ret tt.

Definition resume : M unit :=
  w <- get ;;
  if readable (stream w) && has_resume (stream w) then stream_resume
  else ret tt.

Definition pull : M unit := resume.

Definition cancel (reason : Value) : M unit :=
  w <- get ;;
  (if has_destroy (stream w) then stream_destroy reason else ret tt) ;;;
  stream_off EvData HEnqueue ;;;
  stream_off EvError HError ;;;
  stream_off EvEnd HClose ;;;
  stream_off EvClose HClose.

Definition enqueue (chunk : Value) : M unit :=
  w <- get ;;
  match controller w with
  | Some _ =>
      try_catch
        (bytes <- lift (to_bytes chunk) ;;
         w1 <- get ;;
         let available := or_zero (desiredSize (sink w1)) - byteLength bytes in
         controller_enqueue bytes ;;;
         if available <=? 0 then pause else ret tt)
        (fun _ =>
           controller_error (VError (Error conversion_message)) ;;;
           cancel VUndefined)
  | None => ret tt
  end.

Definition close : M unit :=
  w <- get ;;
  match controller w with
  | Some _ => controller_close ;;; modify (set_controller None)
  | None => ret tt
  end.

Definition error (e : Value) : M unit :=
  w <- get ;;
  match controller w with
  | Some _ => controller_error e ;;; modify (set_controller None)
  | None => ret tt
  end.

End StreamPump.

(** ** Event dispatch and runs *)

Definition call_handler (h : Handler) (arg : Value) : M unit :=
  match h with
  | HEnqueue => StreamPump.enqueue arg
  | HError => StreamPump.error arg
  | HClose => StreamPump.close
  end.

(** [emit] walks a copy of the listener array taken when it starts; a
    [once] listener unregisters itself just before it runs. *)
Fixpoint dispatch (snapshot : list Listener) (arg : Value) : M unit :=
  match snapshot with
  | [] => ret tt
  | l :: rest =>
      (if l_once l
       then update_stream (fun s => set_listeners (remove_last (listener_eqb l) (listeners s)) s)
       else ret tt) ;;;
      call_handler (l_handler l) arg ;;;
      dispatch rest arg
  end.

Definition emit (ev : EventName) (arg : Value) : M unit :=
  w <- get ;;
  dispatch (filter (fun l => event_eqb (l_event l) ev) (listeners (stream w))) arg.

(** What the surroundings of the adapter can do: the readable stream calls
    [start], [pull] and [cancel] and sees its queue (hence [desiredSize])
    change; the source fires events. *)
Inductive Event : Type :=
| Start (c : Controller)
| Pull
| Cancel (reason : Value)
| Emit (ev : EventName) (arg : Value)
| Desired (d : option Z).

Definition step (e : Event) : M unit :=
  match e with
  | Start c => StreamPump.start c
  | Pull => StreamPump.pull
  | Cancel reason => StreamPump.cancel reason
  | Emit ev arg => emit ev arg
  | Desired d => update_sink (set_desiredSize d)
  end.

Fixpoint run (evs : list Event) : M unit :=
  match evs with
  | [] => ret tt
  | e :: rest => step e ;;; run rest
  end.

(** ** Observations on worlds and runs *)

(** What [start] registers on a source that has no listener of the adapter
    yet, in registration order. *)
Definition start_listeners : list Listener :=
  [ mkListener EvData HEnqueue false;
    mkListener EvError HError true;
    mkListener EvEnd HClose true;
    mkListener EvClose HClose true ].

(** The terminal notifications of the sink are [close] and [error]. *)
Definition is_terminal (c : SinkCall) : bool :=
  match c with
  | SEnqueue _ => false
  | SError _ | SClose => true
  end.

Definition no_terminal (calls : list SinkCall) : Prop :=
  forallb (fun c => negb (is_terminal c)) calls = true.

(** Exactly one terminal notification, and nothing after it. *)
Definition one_terminal_last (calls : list SinkCall) : Prop :=
  exists before t,
    calls = before ++ [t] /\ is_terminal t = true /\ no_terminal before.

Definition convertible (chunk : Value) : bool :=
  match to_bytes chunk with
  | inr _ => true
  | inl _ => false
  end.

Definition is_terminal_event (ev : EventName) : bool :=
  match ev with
  | EvData => false
  | EvError | EvEnd | EvClose => true
  end.

(** Events that come from the source or from the consumer reading: no
    [start] and no [cancel]. *)
Definition source_event (e : Event) : bool :=
  match e with
  | Emit _ _ | Pull | Desired _ => true
  | Start _ | Cancel _ => false
  end.

Definition fires_terminal (e : Event) : bool :=
  match e with
  | Emit ev _ => is_terminal_event ev
  | _ => false
  end.

(** Every chunk of the run's [data] events converts to a buffer. *)
Definition chunk_ok (e : Event) : bool :=
  match e with
  | Emit EvData chunk => convertible chunk
  | _ => true
  end.

(** Events that keep an open adapter open: convertible data, [pull], and
    changes of the sink's desired size. *)
Definition flow_event (e : Event) : bool :=
  match e with
  | Emit EvData chunk => convertible chunk
  | Pull | Desired _ => true
  | _ => false
  end.

(** The converted chunks of the [data] events of a run, in order. *)
Fixpoint data_bytes (evs : list Event) : list (list byte) :=
  match evs with
  | [] => []
  | Emit EvData chunk :: rest =>
      match to_bytes chunk with
      | inr bytes => bytes :: data_bytes rest
      | inl _ => data_bytes rest
      end
  | _ :: rest => data_bytes rest
  end.

(** Total byte length of the chunks the sink was handed. *)
Fixpoint enqueued_bytes (calls : list SinkCall) : Z :=
  match calls with
  | [] => 0
  | SEnqueue bytes :: rest => byteLength bytes + enqueued_bytes rest
  | _ :: rest => enqueued_bytes rest
  end.

(** A source no adapter has touched and a sink nothing was sent to. *)
Definition pristine (s : Source) (k : Sink) : Prop :=
  listeners s = [] /\ sink_calls k = [].

(** ** What happened to an adapter so far *)

(** A record of the adapter's history, finer than the three states of the
    design: [Cleared] is termination by a source [error], [end] or [close],
    [Failed] by a chunk that does not convert, [Cancelled] by the consumer. *)
Inductive Phase : Type := Idle | Open | Cleared | Failed | Cancelled.

Definition next (p : Phase) (e : Event) : Phase :=
  match p, e with
  | Idle, Start _ => Open
  | Open, Emit EvData chunk => if convertible chunk then Open else Failed
  | Open, Emit _ _ => Cleared
  | Open, Cancel _ => Cancelled
  | _, _ => p
  end.

Definition phase_after (p : Phase) (evs : list Event) : Phase :=
  fold_left next evs p.

(** [start] is called at most once, on an idle adapter. *)
Definition legal (p : Phase) (e : Event) : bool :=
  match e, p with
  | Start _, Idle => true
  | Start _, _ => false
  | _, _ => true
  end.

Fixpoint legal_run (p : Phase) (evs : list Event) : bool :=
  match evs with
  | [] => true
  | e :: rest => legal p e && legal_run (next p e) rest
  end.

(** The three states of the design's state machine, and how the history
    maps to them: the design has one absorbing state for every way to
    terminate. *)
Inductive DesignState : Type := SIdle | SOpen | STerminated.

Definition design_state (p : Phase) : DesignState :=
  match p with
  | Idle => SIdle
  | Open => SOpen
  | Cleared | Failed | Cancelled => STerminated
  end.

Definition handle_held (w : World) : bool :=
  match controller w with
  | Some _ => true
  | None => false
  end.

(** What relates a world to the history that led to it. *)
Definition phase_inv (p : Phase) (w : World) : Prop :=
  match p with
  | Idle =>
      handle_held w = false /\ listeners (stream w) = []
      /\ no_terminal (sink_calls (sink w))
  | Open =>
      handle_held w = true /\ listeners (stream w) = start_listeners
      /\ no_terminal (sink_calls (sink w))
  | Cleared =>
      handle_held w = false /\ one_terminal_last (sink_calls (sink w))
  | Failed =>
      handle_held w = true /\ listeners (stream w) = []
      /\ one_terminal_last (sink_calls (sink w))
  | Cancelled =>
      handle_held w = true /\ listeners (stream w) = []
      /\ no_terminal (sink_calls (sink w))
  end.

(** ** Sample objects *)

(** An incoming HTTP request: a Node readable with the default threshold. *)
Definition sample_source : Source :=
  mkSource (Some 16384) true true true true [] [].

(** A bare event emitter: no threshold and no flow-control methods. *)
Definition bare_source : Source :=
  mkSource None false false false true [] [].

Definition sample_sink : Sink := mkSink (Some 16384) [].

Definition sample_world : World :=
  mkWorld 16384 0 None sample_source sample_sink.

Definition bare_world : World :=
  mkWorld 16384 0 None bare_source sample_sink.

(** The sample adapter once the readable stream has called [start]. *)
Definition started_world : World :=
  world_of (run [Start TheController] sample_world).

(** Is the handle held in a world with history [p], as the code has it:
    only the [close] and [error] listeners clear it. *)
Definition expected_handle (p : Phase) : bool :=
  match p with
  | Idle | Cleared => false
  | Open | Failed | Cancelled => true
  end.

(** The invariant of the design: the handle is held exactly in state open. *)
Definition handle_iff_open (evs : list Event) (w0 : World) : Prop :=
  handle_held (world_of (run evs w0)) = true
  <-> design_state (phase_after Idle evs) = SOpen.

(** The counter as a running total of the bytes handed to the sink. *)
Definition counter_tracks_bytes (w : World) : Prop :=
  accumalatedSize w = enqueued_bytes (sink_calls (sink w)).

(** The fallback of the design: without a threshold of its own, the source
    gives an adapter whose high-water mark is the default one. *)
Definition falls_back_to_default (readable_default : Z) (s : Source) : Prop :=
  exists w, StreamPump.constructor readable_default sample_sink s = inr w
            /\ highWaterMark w = readable_default.

(** The fields of the world that no step writes. *)
Definition same_frame (w w' : World) : Prop :=
  highWaterMark w' = highWaterMark w
  /\ accumalatedSize w' = accumalatedSize w
  /\ has_pause (stream w') = has_pause (stream w)
  /\ has_resume (stream w') = has_resume (stream w)
  /\ has_destroy (stream w') = has_destroy (stream w).


(** The buffers a sequence of chunks converts to, in order. *)
Fixpoint converted (chunks : list Value) : list (list byte) :=
  match chunks with
  | [] => []
  | chunk :: rest =>
      match to_bytes chunk with
      | inr bytes => bytes :: converted rest
      | inl _ => converted rest
      end
  end.

Definition is_start (e : Event) : bool :=
  match e with
  | Start _ => true
  | _ => false
  end.

(** ** What the sink sees, as a function of the events *)

(** The calls an open, subscribed adapter makes on the sink during a run:
    one [enqueue] per chunk that converts, until the first [end], [close],
    [error], chunk that does not convert, or [cancel]; nothing after. *)
Fixpoint sink_trace (evs : list Event) : list SinkCall :=
  match evs with
  | [] => []
  | Emit EvData chunk :: rest =>
      match to_bytes chunk with
      | inr bytes => SEnqueue bytes :: sink_trace rest
      | inl _ => [SError (VError (Error StreamPump.conversion_message))]
      end
  | Emit EvError e :: _ => [SError e]
  | Emit EvEnd _ :: _ => [SClose]
  | Emit EvClose _ :: _ => [SClose]
  | Cancel _ :: _ => []
  | _ :: rest => sink_trace rest
  end.

(** An adapter nothing can reach the sink through: it has no handle, or
    the source has no listener. *)
Definition quiet (w : World) : Prop :=
  handle_held w = false \/ listeners (stream w) = [].

(** The sublists of [start_listeners]. *)
Definition kept (keep_data keep_error keep_end keep_close : bool) : list Listener :=
  (if keep_data then [mkListener EvData HEnqueue false] else [])
  ++ (if keep_error then [mkListener EvError HError true] else [])
  ++ (if keep_end then [mkListener EvEnd HClose true] else [])
  ++ (if keep_close then [mkListener EvClose HClose true] else []).

Definition within_start (w : World) : Prop :=
  exists b1 b2 b3 b4, listeners (stream w) = kept b1 b2 b3 b4.

(** Has the source fired [ev] during the run? *)
Definition fired (ev : EventName) (evs : list Event) : bool :=
  existsb (fun e => match e with
                    | Emit ev' _ => event_eqb ev' ev
                    | _ => false
                    end) evs.

Definition count_pause (calls : list SourceCall) : nat :=
  List.length (filter (fun c => match c with SrcPause => true | _ => false end) calls).

Definition count_resume (calls : list SourceCall) : nat :=
  List.length (filter (fun c => match c with SrcResume => true | _ => false end) calls).

Definition count_enqueue (calls : list SinkCall) : nat :=
  List.length (filter (fun c => match c with SEnqueue _ => true | _ => false end) calls).

Definition count_pull (evs : list Event) : nat :=
  List.length (filter (fun e => match e with Pull => true | _ => false end) evs).

(** What a run adds to the two call logs. *)
Definition adds (w w' : World) (to_source : list SourceCall)
    (to_sink : list SinkCall) : Prop :=
  src_calls (stream w') = src_calls (stream w) ++ to_source
  /\ sink_calls (sink w') = sink_calls (sink w) ++ to_sink.

(** ** [memory.js]: the resident-memory sampler *)

Module Memory.

(** The callback handed to [process.nextTick]: [memoryCurrentUsage] is what
    [process.memoryUsage.rss()] returns, the result is the new value of
    [memoryMaxUsage]. *)
Definition sample (memoryCurrentUsage memoryMaxUsage : Z) : Z :=
  if memoryCurrentUsage >? memoryMaxUsage then memoryCurrentUsage
  else memoryMaxUsage.

(** [memoryMaxUsage], initially 0, after the callback has run once for each
    reading, in order. *)
Definition memoryMaxUsage (readings : list Z) : Z :=
  fold_left (fun recorded reading => sample reading recorded) readings 0.

End Memory.

(** ** [convertRequest]: from an incoming message to the arguments of [Request] *)

Module Convert.

(** A value of the [req.headers] object: a string, an array of strings, or
    [undefined]. *)
Inductive HeaderValue : Type :=
| HString (value : string)
| HArray (values : list string)
| HUndefined.

(** The [Headers] object is kept as the list of calls it received. *)
Inductive HeadersCall : Type :=
| HeadersSet (key value : string)
| HeadersAppend (key value : string).

Record IncomingMessage : Type := mkIncomingMessage {
  url : string;
  method : string;
  headers : list (string * HeaderValue);   (* [Object.entries(req.headers)] *)
  readable_side : Source                   (* the message as the stream the adapter reads *)
}.

(** The second argument of [new Request]. *)
Record RequestInit : Type := mkRequestInit {
  init_method : string;
  init_headers : list HeadersCall;
  init_body : option World;                (* the readable stream on its adapter *)
  init_duplex : option string
}.

Inductive Failure : Type :=
| Threw (e : Exn)
| ThrewRangeError (message : string).

(** [req.headers.host] and the like: the value of a key, [undefined] when
    the object has no such key. *)
Definition property (key : string) (entries : list (string * HeaderValue))
    : HeaderValue :=
  match find (fun entry => String.eqb (fst entry) key) entries with
  | Some (_, value) => value
  | None => HUndefined
  end.

(** A value spliced into a template string. *)
Definition template (v : HeaderValue) : string :=
  match v with
  | HString value => value
  | HArray values => String.concat "," values
  | HUndefined => "undefined"
  end.

(** The body of the loop over the entries: a falsy value (the empty string,
    [undefined]) is skipped, an array is appended value by value, a string
    is set. *)
Definition header_calls (entry : string * HeaderValue) : list HeadersCall :=
  match entry with
  | (key, HString value) =>
      if String.eqb value "" then [] else [HeadersSet key value]
  | (key, HArray values) => map (HeadersAppend key) values
  | (_, HUndefined) => []
  end.

(** [new ReadableStream(pump, pump)]: the adapter is both the underlying
    source and the queuing strategy.  A negative high-water mark is
    refused; otherwise a controller is made, whose desired size starts at
    the high-water mark, and [start] is called with it. *)
Definition new_ReadableStream (pump : World) : Failure + World :=
  if highWaterMark pump <? 0
  then inl (ThrewRangeError "Invalid highWaterMark")
  else
    match StreamPump.start TheController
            (set_sink (mkSink (Some (highWaterMark pump)) []) pump) with
    | Returned _ w => inr w
    | Thrown e _ => inl (Threw e)
    end.

Section ConvertRequest.

(** [new URL(input, base).href], which raises on an invalid URL. *)
Variable URL_href : string -> string -> Exn + string.

(** What [new Stream.Readable().readableHighWaterMark] would evaluate to. *)
Variable readable_default : Z.

(** [convertRequest(req)], up to the arguments it hands to [new Request];
    [inr] is the point where [new Request] is called with them.  What
    [new Request] then does with them (it refuses a forbidden method such
    as TRACE) is not part of this definition. *)
Definition convertRequest (req : IncomingMessage)
    : Failure + (string * RequestInit) :=
  match URL_href (url req)
          (String.append "http://" (template (property "host" (headers req)))) with
  | inl e => inl (Threw e)
  | inr href =>
      let calls := flat_map header_calls (headers req) in
      if negb (String.eqb (method req) "GET")
         && negb (String.eqb (method req) "HEAD")
      then
        match StreamPump.constructor readable_default (mkSink None [])
                (readable_side req) with
        | inl e => inl (Threw e)
        | inr pump =>
            match new_ReadableStream pump with
            | inl failure => inl failure
            | inr w =>
                inr (href, mkRequestInit (method req) calls (Some w) (Some "half"))
            end
        end
      else inr (href, mkRequestInit (method req) calls None None)
  end.

End ConvertRequest.

(** A URL builder for the examples: the base followed by the path. *)
Definition sample_URL_href (input base : string) : Exn + string :=
  inr (String.append base input).

Definition sample_headers : list (string * HeaderValue) :=
  [ ("host", HString "localhost:3000");
    ("content-type", HString "multipart/form-data");
    ("x-empty", HString "");
    ("set-cookie", HArray ["a=1"; "b=2"]) ].

Definition sample_post : IncomingMessage :=
  mkIncomingMessage "/" "POST" sample_headers sample_source.

Definition bare_post : IncomingMessage :=
  mkIncomingMessage "/" "POST" sample_headers bare_source.

End Convert.

(** ** The buffer a chunk stands for *)

(** What a chunk is as a buffer, kind by kind: a [Uint8Array] (a [Buffer]
    is one) is its own bytes, a string its bytes, an [ArrayBuffer] its
    bytes, an array its elements modulo 256.  A number, a boolean, [null],
    [undefined] and an error object are no buffer. *)
Inductive binary_of : Value -> list byte -> Prop :=
| binary_of_Uint8Array bytes :
    binary_of (VUint8Array bytes) bytes
| binary_of_string s :
    binary_of (VString s) (list_byte_of_string s)
| binary_of_ArrayBuffer bytes :
    binary_of (VArrayBuffer bytes) bytes
| binary_of_array elements bytes :
    Forall2 (fun element b => Z.of_N (Byte.to_N b) = element mod 256)
            elements bytes ->
    binary_of (VArray elements) bytes.

(** ** The controller of the program's sink *)

(** [enqueue(chunk)] of the adapter, with the controller's [enqueue] as a
    parameter; with [controller_enqueue] it is [StreamPump.enqueue]. *)
Definition enqueue_on (sink_enqueue : list byte -> M unit) (chunk : Value)
    : M unit :=
  w <- get ;;
  match controller w with
  | Some _ =>
      try_catch
        (bytes <- lift (to_bytes chunk) ;;
         w1 <- get ;;
         let available := or_zero (desiredSize (sink w1)) - byteLength bytes in
         sink_enqueue bytes ;;;
         if available <=? 0 then StreamPump.pause else ret tt)
        (fun _ =>
           controller_error
             (VError (Error StreamPump.conversion_message)) ;;;
           StreamPump.cancel VUndefined)
  | None => ret tt
  end.

Module WebStream.

(** [controller.enqueue(chunk)] on the controller of
    [new ReadableStream(pump, pump)].  Its [desiredSize] reads [null]
    exactly when the stream is errored, and [enqueue] then throws a
    [TypeError] and queues nothing.  (It throws on a closed stream too,
    which [desiredSize] does not tell from a full one; the adapter closes
    the stream only through [close], which drops the handle.) *)
Definition controller_enqueue (bytes : list byte) : M unit :=
  w <- get ;;
  match desiredSize (sink w) with
  | None => throw (TypeError "Invalid state: Controller is already closed")
  | Some _ => update_sink (log_sink_call (SEnqueue bytes))
  end.

Definition enqueue (chunk : Value) : M unit :=
  enqueue_on controller_enqueue chunk.

End WebStream.


(** The started sample adapter on a sink that wants two more bytes, on an
    errored sink, and after the source has ended. *)
Definition narrow_world : World :=
  set_sink (mkSink (Some 2) []) started_world.


Definition ended_world : World :=
  world_of (run [Emit EvData (VString "ab"); Emit EvEnd VUndefined] started_world).

(** * Properties *)

(** ** Every method returns, and never touches the two counters *)

Ltac open_world w :=
  let hwm := fresh "hwm" in
  let acc := fresh "acc" in
  let ctl := fresh "ctl" in
  let src := fresh "src" in
  let snk := fresh "snk" in
  destruct w as [hwm acc ctl src snk];
  destruct src as [? ? ? ? ? ? ?];
  destruct snk as [? ?].

Ltac run_monad :=
  cbv [StreamPump.start StreamPump.pause StreamPump.resume StreamPump.pull
       StreamPump.cancel StreamPump.enqueue StreamPump.close StreamPump.error
       call_handler step emit
       stream_on stream_once stream_off stream_pause stream_resume
       stream_destroy controller_enqueue controller_error controller_close
       update_stream update_sink modify get bind ret throw try_catch lift
       set_controller set_stream set_sink set_listeners log_src_call
       set_readable log_sink_call set_desiredSize handle_held
       highWaterMark accumalatedSize controller stream sink
       readableHighWaterMark has_pause has_resume has_destroy readable
       listeners src_calls desiredSize sink_calls].

Lemma same_frame_refl w : same_frame w w.
Proof. repeat split. Qed.

Lemma same_frame_trans w1 w2 w3 :
  same_frame w1 w2 -> same_frame w2 w3 -> same_frame w1 w3.
Proof.
  unfold same_frame; intros (a1 & a2 & a3 & a4 & a5) (b1 & b2 & b3 & b4 & b5).
  repeat split; congruence.
Qed.

Lemma pause_returns w :
  exists w', StreamPump.pause w = Returned tt w' /\ same_frame w w'
             /\ sink w' = sink w /\ controller w' = controller w
             /\ listeners (stream w') = listeners (stream w).
Proof.
  open_world w. run_monad. destruct has_pause0; eexists; repeat split.
Qed.

Lemma cancel_returns reason w :
  exists w', StreamPump.cancel reason w = Returned tt w' /\ same_frame w w'
             /\ sink w' = sink w /\ controller w' = controller w.
Proof.
  open_world w. run_monad. destruct has_destroy0; eexists; repeat split.
Qed.

Lemma handler_returns h arg w :
  exists w', call_handler h arg w = Returned tt w' /\ same_frame w w'.
Proof.
  open_world w. destruct h; run_monad.
  - destruct ctl; [|eexists; repeat split].
    destruct (to_bytes arg) as [e|bytes].
    + destruct has_destroy0; eexists; repeat split.
    + destruct (_ <=? 0); [destruct has_pause0|]; eexists; repeat split.
  - destruct ctl; eexists; repeat split.
  - destruct ctl; eexists; repeat split.
Qed.

Lemma dispatch_returns snapshot arg w :
  exists w', dispatch snapshot arg w = Returned tt w' /\ same_frame w w'.
Proof.
  revert w; induction snapshot as [|l rest IH]; intros w; simpl.
  - exists w; split; [reflexivity | apply same_frame_refl].
  - unfold bind at 1.
    set (w1 := world_of ((if l_once l
        then update_stream (fun s => set_listeners (remove_last (listener_eqb l) (listeners s)) s)
        else ret tt) w)).
    assert (H1 : (if l_once l
        then update_stream (fun s => set_listeners (remove_last (listener_eqb l) (listeners s)) s)
        else ret tt) w = Returned tt w1 /\ same_frame w w1).
    { subst w1. destruct (l_once l); simpl; split; try reflexivity;
        open_world w; repeat split. }
    destruct H1 as [-> F1].
    unfold bind at 1.
    destruct (handler_returns (l_handler l) arg w1) as (w2 & -> & F2).
    destruct (IH w2) as (w3 & -> & F3).
    exists w3; split; [reflexivity|].
    eauto using same_frame_trans.
Qed.

Lemma step_returns e w :
  exists w', step e w = Returned tt w' /\ same_frame w w'.
Proof.
  destruct e as [c| |reason|ev arg|d].
  - open_world w. run_monad. eexists; repeat split.
  - open_world w. run_monad.
    destruct (readable0 && has_resume0) eqn:E.
    + apply andb_true_iff in E as [_ ->]. eexists; repeat split.
    + eexists; repeat split.
  - destruct (cancel_returns reason w) as (w' & E & F & _).
    exists w'; split; assumption.
  - unfold step, emit, bind, get. apply dispatch_returns.
  - open_world w. run_monad. eexists; repeat split.
Qed.

Lemma run_returns evs w :
  exists w', run evs w = Returned tt w' /\ same_frame w w'.
Proof.
  revert w; induction evs as [|e rest IH]; intros w; simpl.
  - exists w; split; [reflexivity | apply same_frame_refl].
  - unfold bind. destruct (step_returns e w) as (w1 & -> & F1).
    destruct (IH w1) as (w2 & -> & F2).
    exists w2; split; [reflexivity | eauto using same_frame_trans].
Qed.

Lemma run_app evs1 evs2 w :
  run (evs1 ++ evs2) w =
  match run evs1 w with
  | Returned _ w1 => run evs2 w1
  | Thrown e w1 => Thrown e w1
  end.
Proof.
  revert w; induction evs1 as [|e rest IH]; intros w; simpl; [reflexivity|].
  unfold bind. destruct (step e w) as [[] w1|x w1]; [apply IH | reflexivity].
Qed.

(** ** With no handle, nothing reaches the sink *)

Lemma handler_without_handle h arg w :
  handle_held w = false -> call_handler h arg w = Returned tt w.
Proof.
  open_world w. destruct ctl; [discriminate|]. intros _.
  destruct h; reflexivity.
Qed.

Lemma dispatch_without_handle snapshot arg w :
  handle_held w = false ->
  exists w', dispatch snapshot arg w = Returned tt w'
             /\ handle_held w' = false /\ sink w' = sink w
             /\ src_calls (stream w') = src_calls (stream w).
Proof.
  revert w; induction snapshot as [|l rest IH]; intros w Hw; simpl.
  - exists w; auto.
  - unfold bind at 1. destruct (l_once l).
    + unfold update_stream, modify at 1.
      unfold bind at 1. rewrite handler_without_handle by (open_world w; exact Hw).
      match goal with |- context [dispatch rest arg ?w1] =>
        destruct (IH w1) as (w' & E & H1 & H2 & H3); [open_world w; exact Hw|] end.
      exists w'. unfold modify. rewrite E.
      repeat split; auto; open_world w; assumption.
    + unfold ret at 1. unfold bind at 1. rewrite handler_without_handle by exact Hw.
      apply IH; exact Hw.
Qed.

Lemma no_terminal_enqueue calls bytes :
  no_terminal calls -> no_terminal (calls ++ [SEnqueue bytes]).
Proof.
  unfold no_terminal; intros H. rewrite forallb_app, H. reflexivity.
Qed.

Lemma one_terminal_intro calls t :
  no_terminal calls -> is_terminal t = true -> one_terminal_last (calls ++ [t]).
Proof. intros H1 H2. exists calls, t. auto. Qed.

(** ** One step of the surroundings keeps the world in line with its history *)

Lemma step_phase_inv p e w :
  phase_inv p w -> legal p e = true ->
  exists w', step e w = Returned tt w' /\ phase_inv (next p e) w'.
Proof.
  intros Hinv Hlegal.
  destruct p; simpl in Hinv.
  - (* Idle *)
    destruct Hinv as (Hc & Hl & Ht).
    open_world w. simpl in Hc, Hl, Ht. subst.
    destruct e as [c| |reason|ev arg|d]; simpl next; run_monad.
    + eexists; split; [reflexivity|]. simpl. auto.
    + destruct (readable0 && has_resume0) eqn:E;
        [apply andb_true_iff in E as [_ ->]|]; eexists; split; try reflexivity; simpl; auto.
    + destruct has_destroy0; eexists; split; try reflexivity; simpl; auto.
    + simpl. eexists; split; [reflexivity|]. simpl; auto.
    + eexists; split; [reflexivity|]. simpl; auto.
  - (* Open *)
    destruct Hinv as (Hc & Hl & Ht).
    open_world w. simpl in Hc, Hl, Ht. subst.
    destruct ctl as [c0|]; [|discriminate].
    destruct e as [c| |reason|ev arg|d]; simpl next.
    + discriminate.
    + run_monad. destruct (readable0 && has_resume0) eqn:E;
        [apply andb_true_iff in E as [_ ->]|]; eexists; split; try reflexivity; simpl; auto.
    + run_monad. destruct has_destroy0; eexists; split; try reflexivity; simpl; auto.
    + destruct ev; unfold convertible.
      * run_monad. simpl. run_monad.
        destruct (to_bytes arg) as [x|bytes].
        -- destruct has_destroy0; simpl; eexists; (split; [reflexivity|]); simpl;
             (split; [reflexivity|split; [reflexivity|]]);
             apply one_terminal_intro; auto.
        -- destruct (_ <=? 0); [destruct has_pause0|]; eexists;
             (split; [reflexivity|]); simpl;
             (split; [reflexivity|split; [reflexivity|]]);
             apply no_terminal_enqueue; auto.
      * run_monad. simpl. run_monad. eexists; split; [reflexivity|]. simpl.
        split; [reflexivity|]. apply one_terminal_intro; auto.
      * run_monad. simpl. run_monad. eexists; split; [reflexivity|]. simpl.
        split; [reflexivity|]. apply one_terminal_intro; auto.
      * run_monad. simpl. run_monad. eexists; split; [reflexivity|]. simpl.
        split; [reflexivity|]. apply one_terminal_intro; auto.
    + run_monad. eexists; split; [reflexivity|]. simpl; auto.
  - (* Cleared *)
    destruct Hinv as (Hc & Ht).
    destruct e as [c| |reason|ev arg|d]; simpl next.
    + discriminate.
    + open_world w. simpl in Hc, Ht. run_monad.
      destruct (readable0 && has_resume0) eqn:E;
        [apply andb_true_iff in E as [_ ->]|]; eexists; split; try reflexivity; simpl; auto.
    + open_world w. simpl in Hc, Ht. run_monad.
      destruct has_destroy0; eexists; split; try reflexivity; simpl; auto.
    + unfold step, emit, bind, get.
      match goal with |- context [dispatch ?s arg w] =>
        destruct (dispatch_without_handle s arg w Hc) as (w' & E & H1 & H2 & _) end.
      exists w'. split; [exact E|]. simpl. rewrite H2. auto.
    + open_world w. simpl in Hc, Ht. run_monad.
      eexists; split; [reflexivity|]. simpl; auto.
  - (* Failed *)
    destruct Hinv as (Hc & Hl & Ht).
    open_world w. simpl in Hc, Hl, Ht. subst.
    destruct e as [c| |reason|ev arg|d]; simpl next; run_monad.
    + discriminate.
    + destruct (readable0 && has_resume0) eqn:E;
        [apply andb_true_iff in E as [_ ->]|]; eexists; split; try reflexivity; simpl; auto.
    + destruct has_destroy0; eexists; split; try reflexivity; simpl; auto.
    + simpl. eexists; split; [reflexivity|]. simpl; auto.
    + eexists; split; [reflexivity|]. simpl; auto.
  - (* Cancelled *)
    destruct Hinv as (Hc & Hl & Ht).
    open_world w. simpl in Hc, Hl, Ht. subst.
    destruct e as [c| |reason|ev arg|d]; simpl next; run_monad.
    + discriminate.
    + destruct (readable0 && has_resume0) eqn:E;
        [apply andb_true_iff in E as [_ ->]|]; eexists; split; try reflexivity; simpl; auto.
    + destruct has_destroy0; eexists; split; try reflexivity; simpl; auto.
    + simpl. eexists; split; [reflexivity|]. simpl; auto.
    + eexists; split; [reflexivity|]. simpl; auto.
Qed.

Lemma step_after_termination p e w :
  phase_inv p w -> design_state p = STerminated -> legal p e = true ->
  exists w', step e w = Returned tt w'
             /\ sink_calls (sink w') = sink_calls (sink w).
Proof.
  intros Hinv Hp Hlegal.
  destruct p; try discriminate; simpl in Hinv.
  - destruct Hinv as (Hc & Ht).
    destruct e as [c| |reason|ev arg|d]; try discriminate.
    + open_world w. run_monad.
      destruct (readable0 && has_resume0) eqn:E;
        [apply andb_true_iff in E as [_ ->]|]; eexists; split; reflexivity.
    + open_world w. run_monad.
      destruct has_destroy0; eexists; split; reflexivity.
    + unfold step, emit, bind, get.
      match goal with |- context [dispatch ?s arg w] =>
        destruct (dispatch_without_handle s arg w Hc) as (w' & E & H1 & H2 & _) end.
      exists w'. rewrite H2. auto.
    + open_world w. run_monad. eexists; split; reflexivity.
  - destruct Hinv as (Hc & Hl & Ht).
    open_world w. simpl in Hc, Hl, Ht. subst.
    destruct e as [c| |reason|ev arg|d]; try discriminate; run_monad.
    + destruct (readable0 && has_resume0) eqn:E;
        [apply andb_true_iff in E as [_ ->]|]; eexists; split; reflexivity.
    + destruct has_destroy0; eexists; split; reflexivity.
    + simpl. eexists; split; reflexivity.
    + eexists; split; reflexivity.
  - destruct Hinv as (Hc & Hl & Ht).
    open_world w. simpl in Hc, Hl, Ht. subst.
    destruct e as [c| |reason|ev arg|d]; try discriminate; run_monad.
    + destruct (readable0 && has_resume0) eqn:E;
        [apply andb_true_iff in E as [_ ->]|]; eexists; split; reflexivity.
    + destruct has_destroy0; eexists; split; reflexivity.
    + simpl. eexists; split; reflexivity.
    + eexists; split; reflexivity.
Qed.

Lemma next_terminated p e :
  design_state p = STerminated -> next p e = p.
Proof. destruct p; try discriminate; destruct e; reflexivity. Qed.

Lemma phase_after_terminated p evs :
  design_state p = STerminated -> phase_after p evs = p.
Proof.
  unfold phase_after. induction evs as [|e rest IH]; intros Hp; simpl; [reflexivity|].
  rewrite next_terminated by exact Hp. apply IH, Hp.
Qed.

Lemma legal_terminated p evs :
  design_state p = STerminated ->
  forallb (fun e => negb (is_start e)) evs = true -> legal_run p evs = true.
Proof.
  induction evs as [|e rest IH]; intros Hp Hs; simpl; [reflexivity|].
  simpl in Hs. apply andb_true_iff in Hs as [He Hrest].
  rewrite next_terminated by exact Hp. rewrite IH by assumption.
  destruct e; try discriminate; destruct p; reflexivity.
Qed.

Lemma source_events_no_start evs :
  forallb source_event evs = true ->
  forallb (fun e => negb (is_start e)) evs = true.
Proof.
  induction evs as [|e rest IH]; simpl; [reflexivity|].
  intros H. apply andb_true_iff in H as [He Hrest].
  rewrite IH by assumption. destruct e; try discriminate; reflexivity.
Qed.

Lemma run_phase_inv evs p w :
  phase_inv p w -> legal_run p evs = true ->
  exists w', run evs w = Returned tt w' /\ phase_inv (phase_after p evs) w'.
Proof.
  revert p w; induction evs as [|e rest IH]; intros p w Hinv Hlegal; simpl.
  - exists w; auto.
  - simpl in Hlegal. apply andb_true_iff in Hlegal as [He Hrest].
    destruct (step_phase_inv p e w Hinv He) as (w1 & E1 & Hinv1).
    unfold bind. rewrite E1.
    apply (IH (next p e) w1 Hinv1 Hrest).
Qed.

Lemma run_after_termination evs p w :
  phase_inv p w -> design_state p = STerminated -> legal_run p evs = true ->
  exists w', run evs w = Returned tt w'
             /\ sink_calls (sink w') = sink_calls (sink w).
Proof.
  revert w; induction evs as [|e rest IH]; intros w Hinv Hp Hlegal; simpl.
  - exists w; auto.
  - simpl in Hlegal. apply andb_true_iff in Hlegal as [He Hrest].
    destruct (step_after_termination p e w Hinv Hp He) as (w1 & E1 & S1).
    destruct (step_phase_inv p e w Hinv He) as (w1' & E1' & Hinv1).
    rewrite E1 in E1'. injection E1' as <-.
    rewrite next_terminated in Hinv1, Hrest by exact Hp.
    unfold bind. rewrite E1.
    destruct (IH w1 Hinv1 Hp Hrest) as (w2 & E2 & S2).
    exists w2. split; [exact E2 | congruence].
Qed.

(** From an open adapter, source events that include an [end], a [close] or
    an [error] end in [Cleared] or [Failed]. *)
Lemma open_run_terminates evs :
  forallb source_event evs = true -> existsb fires_terminal evs = true ->
  legal_run Open evs = true
  /\ (phase_after Open evs = Cleared \/ phase_after Open evs = Failed)
  /\ (forallb chunk_ok evs = true -> phase_after Open evs = Cleared).
Proof.
  induction evs as [|e rest IH]; intros Hs Ht; [discriminate|].
  simpl in Hs, Ht. apply andb_true_iff in Hs as [He Hrest].
  assert (Hstay : forall p, design_state p = STerminated ->
            legal_run p rest = true /\ phase_after p rest = p).
  { intros p Hp; split;
      [apply legal_terminated; [|apply source_events_no_start]
      | apply phase_after_terminated]; assumption. }
  destruct e as [c| |reason|ev arg|d]; try discriminate; simpl in Ht.
  - destruct (IH Hrest Ht) as (L & P & C). simpl. auto.
  - destruct ev; simpl in Ht.
    + unfold phase_after; simpl. destruct (convertible arg) eqn:Ec.
      * destruct (IH Hrest Ht) as (L & P & C). auto.
      * destruct (Hstay Failed eq_refl) as [L P]. unfold phase_after in P.
        rewrite P. repeat split; auto. discriminate.
    + destruct (Hstay Cleared eq_refl) as [L P]. unfold phase_after in *.
      simpl. rewrite P. auto.
    + destruct (Hstay Cleared eq_refl) as [L P]. unfold phase_after in *.
      simpl. rewrite P. auto.
    + destruct (Hstay Cleared eq_refl) as [L P]. unfold phase_after in *.
      simpl. rewrite P. auto.
  - destruct (IH Hrest Ht) as (L & P & C). simpl. auto.
Qed.

Lemma constructor_idle d k s w0 :
  StreamPump.constructor d k s = inr w0 -> pristine s k ->
  w0 = mkWorld (highWaterMark w0) 0 None s k /\ phase_inv Idle w0.
Proof.
  unfold StreamPump.constructor. intros H [Hl Hk].
  destruct (js_or _ _); [discriminate|].
  injection H as <-; simpl; rewrite Hl, Hk; repeat split.
Qed.

(** ** Terminal notifications *)

(** C1: in every run in which, after [start], the source fires data, end,
    close and error events in any order and number (with at least one of
    end, close, error) while the consumer pulls, the sink receives exactly
    one terminal notification ([close] or [error]) and it is the last call
    the sink sees; when every chunk converted, the handle is cleared by
    then, and whatever happens later (more events of the source, [pull],
    [cancel]) leaves the sink's log as it is. *)
Theorem single_terminal_notification d k s w0 c evs :
  StreamPump.constructor d k s = inr w0 -> pristine s k ->
  forallb source_event evs = true -> existsb fires_terminal evs = true ->
  exists w',
    run (Start c :: evs) w0 = Returned tt w'
    /\ one_terminal_last (sink_calls (sink w'))
    /\ (forallb chunk_ok evs = true -> handle_held w' = false)
    /\ (forall later, forallb (fun e => negb (is_start e)) later = true ->
          exists w'', run later w' = Returned tt w''
                      /\ sink_calls (sink w'') = sink_calls (sink w')).
Proof.
  intros Hnew Hp Hs Ht.
  destruct (constructor_idle d k s w0 Hnew Hp) as [_ Hidle].
  destruct (open_run_terminates evs Hs Ht) as (Hlegal & Hphase & Hclear).
  destruct (run_phase_inv (Start c :: evs) Idle w0 Hidle) as (w' & E & Hinv).
  { simpl. exact Hlegal. }
  change (phase_after Idle (Start c :: evs)) with (phase_after Open evs) in Hinv.
  exists w'. split; [exact E|].
  assert (Hterm : design_state (phase_after Open evs) = STerminated)
    by (destruct Hphase as [-> | ->]; reflexivity).
  repeat split.
  - destruct Hphase as [Hph | Hph]; rewrite Hph in Hinv; simpl in Hinv; tauto.
  - intros Hok. rewrite (Hclear Hok) in Hinv. simpl in Hinv. tauto.
  - intros later Hlater.
    apply (run_after_termination later _ w' Hinv Hterm).
    apply legal_terminated; assumption.
Qed.

Lemma single_terminal_notification_witness :
  exists w',
    run [Start TheController; Emit EvData (VString "ab"); Emit EvEnd VUndefined;
         Emit EvError (VError (Error "reset")); Emit EvClose VUndefined]
        sample_world = Returned tt w'
    /\ one_terminal_last (sink_calls (sink w'))
    /\ (true = true -> handle_held w' = false)
    /\ (forall later, forallb (fun e => negb (is_start e)) later = true ->
          exists w'', run later w' = Returned tt w''
                      /\ sink_calls (sink w'') = sink_calls (sink w')).
Proof.
  apply (single_terminal_notification 16384 sample_sink sample_source
           sample_world TheController
           [Emit EvData (VString "ab"); Emit EvEnd VUndefined;
            Emit EvError (VError (Error "reset")); Emit EvClose VUndefined]).
  - reflexivity.
  - split; reflexivity.
  - reflexivity.
  - reflexivity.
Defined.

(** ** Order of the chunks *)

Lemma flow_step e w :
  handle_held w = true -> listeners (stream w) = start_listeners ->
  flow_event e = true ->
  exists w', step e w = Returned tt w'
    /\ sink_calls (sink w') = sink_calls (sink w) ++ map SEnqueue (data_bytes [e])
    /\ handle_held w' = true /\ listeners (stream w') = start_listeners.
Proof.
  intros Hc Hl He. open_world w. simpl in Hc, Hl. subst.
  destruct ctl as [c0|]; [|discriminate].
  destruct e as [c| |reason|ev arg|d]; try discriminate.
  - run_monad. destruct (readable0 && has_resume0) eqn:E;
      [apply andb_true_iff in E as [_ ->]|]; eexists; repeat split;
      simpl; rewrite app_nil_r; reflexivity.
  - destruct ev; try discriminate. simpl in He. unfold convertible in He.
    simpl data_bytes. run_monad. simpl. run_monad.
    destruct (to_bytes arg) as [x|bytes]; [discriminate|].
    destruct (_ <=? 0); [destruct has_pause0|]; eexists; repeat split.
  - run_monad. eexists; repeat split. simpl; rewrite app_nil_r; reflexivity.
Qed.

Lemma data_bytes_cons e evs :
  data_bytes (e :: evs) = data_bytes [e] ++ data_bytes evs.
Proof.
  destruct e as [c| |reason|ev arg|d]; try reflexivity.
  destruct ev; try reflexivity. simpl. destruct (to_bytes arg); reflexivity.
Qed.

(** Through the emitter, with pulls and changes of the desired size between
    the data events. *)
Lemma order_preserved_run evs w :
  handle_held w = true -> listeners (stream w) = start_listeners ->
  forallb flow_event evs = true ->
  exists w',
    run evs w = Returned tt w'
    /\ sink_calls (sink w') = sink_calls (sink w) ++ map SEnqueue (data_bytes evs)
    /\ handle_held w' = true.
Proof.
  revert w; induction evs as [|e rest IH]; intros w Hc Hl Hf.
  - exists w. simpl. rewrite app_nil_r. auto.
  - simpl in Hf. apply andb_true_iff in Hf as [He Hrest].
    destruct (flow_step e w Hc Hl He) as (w1 & E1 & S1 & C1 & L1).
    destruct (IH w1 C1 L1 Hrest) as (w2 & E2 & S2 & C2).
    exists w2. simpl run. unfold bind. rewrite E1.
    split; [exact E2|]. split; [|exact C2].
    rewrite (data_bytes_cons e rest), S2, S1, map_app, app_assoc. reflexivity.
Qed.



Lemma binary_of_to_bytes chunk bytes :
  binary_of chunk bytes -> to_bytes chunk = inr bytes.
Proof.
  intros H. destruct H as [bytes|s|bytes|elements bytes H]; try reflexivity.
  simpl. f_equal.
  induction H as [|element b elements bytes Hb _ IH]; simpl; [reflexivity|].
  f_equal; [|exact IH].
  unfold byte_of_Z.
  change 255 with (Z.ones 8). rewrite Z.land_ones by lia.
  change (2 ^ 8) with 256. rewrite <- Hb, N2Z.id, Byte.of_to_N. reflexivity.
Qed.

Lemma to_bytes_binary_of chunk bytes :
  to_bytes chunk = inr bytes -> binary_of chunk bytes.
Proof.
  destruct chunk; simpl; intros H; try discriminate;
    injection H as <-; try constructor.
  induction elements as [|element rest IH]; simpl; constructor; [|exact IH].
  unfold byte_of_Z.
  change 255 with (Z.ones 8). rewrite Z.land_ones by lia.
  change (2 ^ 8) with 256.
  pose proof (Z.mod_pos_bound element 256 ltac:(lia)) as Hm.
  destruct (Byte.of_N (Z.to_N (element mod 256))) as [b|] eqn:E.
  - apply Byte.to_of_N in E. rewrite E. apply Z2N.id. lia.
  - apply Byte.of_N_None_iff in E. lia.
Qed.



(** ** Backpressure *)

Lemma snoc_neq {A} (l : list A) (x : A) : l ++ [x] <> l.
Proof.
  intros H. apply (f_equal (@List.length A)) in H.
  rewrite length_app in H. simpl in H. lia.
Qed.

(** C3: for a chunk that converts, handled while the handle is held and
    the sink's desired size is the number [d]: the chunk is enqueued, and
    the adapter runs its [pause] if and only if [d] minus the chunk's byte
    length is at most zero, so that a source with a [pause] method is
    paused exactly then.  [pull] resumes a source that is readable and has
    a [resume] method, and does nothing to any other. *)
Theorem backpressure w chunk bytes d :
  handle_held w = true -> binary_of chunk bytes ->
  desiredSize (sink w) = Some d ->
  exists w1 w',
    controller_enqueue bytes w = Returned tt w1
    /\ StreamPump.enqueue chunk w = Returned tt w'
    /\ sink_calls (sink w') = sink_calls (sink w) ++ [SEnqueue bytes]
    /\ (d - Z.of_nat (List.length bytes) <= 0 ->
        StreamPump.pause w1 = Returned tt w')
    /\ (0 < d - Z.of_nat (List.length bytes) -> w' = w1)
    /\ (has_pause (stream w) = true ->
        (src_calls (stream w') = src_calls (stream w) ++ [SrcPause]
         <-> d - Z.of_nat (List.length bytes) <= 0))
    /\ (forall w2,
          exists w3, StreamPump.pull w2 = Returned tt w3
            /\ sink w3 = sink w2
            /\ (readable (stream w2) = true -> has_resume (stream w2) = true ->
                src_calls (stream w3) = src_calls (stream w2) ++ [SrcResume])
            /\ (readable (stream w2) = false \/ has_resume (stream w2) = false ->
                w3 = w2)).
Proof.
  intros Hc Hb Hd. apply binary_of_to_bytes in Hb.
  assert (Hpull : forall w2,
          exists w3, StreamPump.pull w2 = Returned tt w3
            /\ sink w3 = sink w2
            /\ (readable (stream w2) = true -> has_resume (stream w2) = true ->
                src_calls (stream w3) = src_calls (stream w2) ++ [SrcResume])
            /\ (readable (stream w2) = false \/ has_resume (stream w2) = false ->
                w3 = w2)).
  { intros w2. open_world w2. run_monad.
    destruct readable0, has_resume0; simpl; eexists;
      (split; [reflexivity|]); simpl; repeat split;
      try discriminate; intros [H | H]; discriminate H. }
  open_world w. simpl in Hc, Hd. subst.
  destruct ctl as [c0|]; [|discriminate].
  run_monad. rewrite Hb.
  change (or_zero (Some d)) with d. unfold byteLength.
  destruct (d - Z.of_nat (List.length bytes) <=? 0) eqn:E.
  - apply Z.leb_le in E.
    destruct has_pause0; do 2 eexists;
      (split; [reflexivity|]); (split; [reflexivity|]); simpl;
      (split; [reflexivity|]); (split; [reflexivity|]);
      (split; [intros; lia|]); (split; [|exact Hpull]);
      try discriminate.
    intros _; split; auto.
  - apply Z.leb_gt in E.
    do 2 eexists;
      (split; [reflexivity|]); (split; [reflexivity|]); simpl;
      (split; [reflexivity|]); (split; [intros; lia|]);
      (split; [reflexivity|]); (split; [|exact Hpull]).
    intros _; split; [|intros; lia].
    intros H. exfalso. exact (snoc_neq _ _ (eq_sym H)).
Qed.

(** The witness takes both branches: a sink that wants two more bytes is
    given two and the source is paused; a sink that wants 16384 is given
    two and the source is left alone. *)
Lemma backpressure_witness :
  (exists w1 w',
    controller_enqueue [x61; x62] narrow_world = Returned tt w1
    /\ StreamPump.enqueue (VString "ab") narrow_world = Returned tt w'
    /\ sink_calls (sink w') = [] ++ [SEnqueue [x61; x62]]
    /\ (2 - 2 <= 0 -> StreamPump.pause w1 = Returned tt w')
    /\ (0 < 2 - 2 -> w' = w1)
    /\ (true = true -> (src_calls (stream w') = [] ++ [SrcPause] <-> 2 - 2 <= 0))
    /\ (forall w2,
          exists w3, StreamPump.pull w2 = Returned tt w3
            /\ sink w3 = sink w2
            /\ (readable (stream w2) = true -> has_resume (stream w2) = true ->
                src_calls (stream w3) = src_calls (stream w2) ++ [SrcResume])
            /\ (readable (stream w2) = false \/ has_resume (stream w2) = false ->
                w3 = w2)))
  /\ (exists w1 w',
    controller_enqueue [x61; x62] started_world = Returned tt w1
    /\ StreamPump.enqueue (VString "ab") started_world = Returned tt w'
    /\ sink_calls (sink w') = [] ++ [SEnqueue [x61; x62]]
    /\ (16384 - 2 <= 0 -> StreamPump.pause w1 = Returned tt w')
    /\ (0 < 16384 - 2 -> w' = w1)
    /\ (true = true -> (src_calls (stream w') = [] ++ [SrcPause] <-> 16384 - 2 <= 0))
    /\ (forall w2,
          exists w3, StreamPump.pull w2 = Returned tt w3
            /\ sink w3 = sink w2
            /\ (readable (stream w2) = true -> has_resume (stream w2) = true ->
                src_calls (stream w3) = src_calls (stream w2) ++ [SrcResume])
            /\ (readable (stream w2) = false \/ has_resume (stream w2) = false ->
                w3 = w2))).
Proof.
  split.
  - apply (backpressure narrow_world (VString "ab") [x61; x62] 2);
      [reflexivity | constructor | reflexivity].
  - apply (backpressure started_world (VString "ab") [x61; x62] 16384);
      [reflexivity | constructor | reflexivity].
Defined.

Example backpressure_pause_branch :
  src_calls (stream (world_of (StreamPump.enqueue (VString "ab") narrow_world)))
  = [SrcPause]
  /\ src_calls (stream (world_of (StreamPump.enqueue (VString "ab") started_world)))
     = [].
Proof. split; reflexivity. Qed.

Lemma enqueue_on_log_sink chunk :
  enqueue_on controller_enqueue chunk = StreamPump.enqueue chunk.
Proof. reflexivity. Qed.

(** While the desired size reads as a number, the program's controller
    takes the chunk as the sink of the other sections does. *)
Lemma enqueue_on_readable_stream chunk w d :
  desiredSize (sink w) = Some d ->
  WebStream.enqueue chunk w = StreamPump.enqueue chunk w.
Proof.
  intros Hd. open_world w. simpl in Hd. subst.
  unfold WebStream.enqueue, enqueue_on, WebStream.controller_enqueue.
  run_monad. destruct ctl; [|reflexivity].
  destruct (to_bytes chunk); reflexivity.
Qed.




(** ** The handle and the state machine *)

(** After a chunk that does not convert, the adapter has terminated and
    still holds the handle. *)
Lemma handle_iff_open_fails :
  ~ handle_iff_open [Start TheController; Emit EvData (VNumber 7)] sample_world.
Proof.
  unfold handle_iff_open. intros [H _].
  assert (E : handle_held (world_of (run [Start TheController; Emit EvData (VNumber 7)]
                                         sample_world)) = true) by reflexivity.
  specialize (H E). discriminate H.
Qed.

(** C4, as the code has it: in every state reached from a new adapter with
    at most one [start], the handle is held exactly when the adapter is
    open, or has terminated through [cancel] or through a chunk that does
    not convert; these two leave the handle set and remove the listeners
    instead.  It is set by [start] and cleared by a source [error], [end]
    or [close]; without a handle, [enqueue], [error] and [close] change
    nothing. *)
Theorem handle_follows_history d k s w0 evs :
  StreamPump.constructor d k s = inr w0 -> pristine s k ->
  legal_run Idle evs = true ->
  exists w',
    run evs w0 = Returned tt w'
    /\ handle_held w' = expected_handle (phase_after Idle evs)
    /\ (phase_after Idle evs = Failed \/ phase_after Idle evs = Cancelled ->
        listeners (stream w') = [])
    /\ (forall h arg, handle_held w' = false ->
        call_handler h arg w' = Returned tt w').
Proof.
  intros Hnew Hp Hlegal.
  destruct (constructor_idle d k s w0 Hnew Hp) as [_ Hidle].
  destruct (run_phase_inv evs Idle w0 Hidle Hlegal) as (w' & E & Hinv).
  exists w'. split; [exact E|].
  repeat split.
  - destruct (phase_after Idle evs); simpl in Hinv; simpl; tauto.
  - intros [Hph | Hph]; rewrite Hph in Hinv; simpl in Hinv; tauto.
  - intros h arg Hh. apply handler_without_handle, Hh.
Qed.

Lemma handle_follows_history_witness :
  exists w',
    run [Start TheController; Emit EvData (VString "ab"); Cancel VNull;
         Emit EvEnd VUndefined] sample_world = Returned tt w'
    /\ handle_held w' = true
    /\ (Cancelled = Failed \/ Cancelled = Cancelled -> listeners (stream w') = [])
    /\ (forall h arg, handle_held w' = false ->
        call_handler h arg w' = Returned tt w').
Proof.
  apply (handle_follows_history 16384 sample_sink sample_source sample_world
           [Start TheController; Emit EvData (VString "ab"); Cancel VNull;
            Emit EvEnd VUndefined]).
  - reflexivity.
  - split; reflexivity.
  - reflexivity.
Defined.

(** ** A chunk that does not convert *)

(** C5: when an open, subscribed adapter receives a chunk that does not
    convert, the sink receives one [error] call carrying the message about
    the chunk's type, [cancel] runs (the source is destroyed when it can
    be) and removes all four listeners, and data the source emits
    afterwards changes nothing. *)
Theorem conversion_failure w chunk :
  handle_held w = true -> listeners (stream w) = start_listeners ->
  convertible chunk = false ->
  exists w',
    emit EvData chunk w = Returned tt w'
    /\ sink_calls (sink w') =
       sink_calls (sink w)
       ++ [SError (VError (Error
             "Could not create Buffer, chunk must be of type string or an instance of Buffer, ArrayBuffer, or Array or an Array-like Object"))]
    /\ listeners (stream w') = []
    /\ src_calls (stream w') =
       src_calls (stream w)
       ++ (if has_destroy (stream w) then [SrcDestroy VUndefined] else [])
    /\ (forall later, emit EvData later w' = Returned tt w').
Proof.
  intros Hc Hl Hbad. open_world w. simpl in Hc, Hl. subst.
  destruct ctl as [c0|]; [|discriminate].
  unfold convertible in Hbad.
  run_monad. simpl. run_monad.
  destruct (to_bytes chunk) as [x|bytes]; [|discriminate].
  destruct has_destroy0; eexists; (split; [reflexivity|]); simpl;
    repeat split; rewrite ?app_nil_r; reflexivity.
Qed.

Lemma conversion_failure_witness :
  exists w',
    emit EvData (VNumber 7) started_world = Returned tt w'
    /\ sink_calls (sink w') =
       []
       ++ [SError (VError (Error
             "Could not create Buffer, chunk must be of type string or an instance of Buffer, ArrayBuffer, or Array or an Array-like Object"))]
    /\ listeners (stream w') = []
    /\ src_calls (stream w') = [] ++ [SrcDestroy VUndefined]
    /\ (forall later, emit EvData later w' = Returned tt w').
Proof.
  apply (conversion_failure started_world (VNumber 7)); reflexivity.
Defined.

(** ** The constructor *)

Lemma constructor_keeps_source_threshold d k s n :
  readableHighWaterMark s = Some n -> n <> 0 ->
  exists w, StreamPump.constructor d k s = inr w /\ highWaterMark w = n.
Proof.
  intros Hs Hn. unfold StreamPump.constructor, js_or. rewrite Hs.
  destruct (n =? 0) eqn:E; [apply Z.eqb_eq in E; contradiction|].
  eexists; split; reflexivity.
Qed.

(** C6, at a source without a threshold of its own: the fallback expression
    refers to [Stream], which the module does not bind, so the constructor
    raises a [ReferenceError] and no adapter is made. *)
Theorem constructor_fallback_throws d k s :
  readableHighWaterMark s = None \/ readableHighWaterMark s = Some 0 ->
  StreamPump.constructor d k s = inl (ReferenceError "Stream is not defined").
Proof.
  intros [H | H]; unfold StreamPump.constructor; rewrite H; reflexivity.
Qed.

Lemma constructor_fallback_throws_witness :
  StreamPump.constructor 16384 sample_sink bare_source
  = inl (ReferenceError "Stream is not defined").
Proof.
  apply (constructor_fallback_throws 16384 sample_sink bare_source).
  left; reflexivity.
Defined.

Lemma fallback_fails_on_bare_source :
  ~ falls_back_to_default 16384 bare_source.
Proof. intros (w & H & _). discriminate H. Qed.

(** ** Cancellation *)

(** C7: in every state, [cancel] returns and leaves the sink's log and the
    handle as they are; so does a second [cancel] after it, and a [cancel]
    that follows the source's [close]. *)
Theorem cancel_idempotent w reason1 reason2 :
  exists w1 w2,
    StreamPump.cancel reason1 w = Returned tt w1
    /\ StreamPump.cancel reason2 w1 = Returned tt w2
    /\ sink w1 = sink w /\ sink w2 = sink w
    /\ (forall arg, exists w3 w4,
          emit EvClose arg w = Returned tt w3
          /\ StreamPump.cancel reason1 w3 = Returned tt w4
          /\ sink w4 = sink w3).
Proof.
  destruct (cancel_returns reason1 w) as (w1 & E1 & _ & S1 & _).
  destruct (cancel_returns reason2 w1) as (w2 & E2 & _ & S2 & _).
  exists w1, w2. repeat split; try assumption; try congruence.
  intros arg.
  destruct (step_returns (Emit EvClose arg) w) as (w3 & E3 & _).
  destruct (cancel_returns reason1 w3) as (w4 & E4 & _ & S4 & _).
  exists w3, w4. auto.
Qed.

(** ** The byte counter *)

(** After one two-byte chunk the counter is still zero. *)
Lemma counter_tracks_bytes_fails :
  ~ counter_tracks_bytes
      (world_of (run [Start TheController; Emit EvData (VString "ab")] sample_world)).
Proof. unfold counter_tracks_bytes. simpl. discriminate. Qed.

(** C8, as the code has it: the constructor sets the counter to zero and
    nothing changes it afterwards; it is zero after every run, whatever was
    enqueued. *)
Theorem counter_stays_zero d k s w0 evs :
  StreamPump.constructor d k s = inr w0 ->
  exists w', run evs w0 = Returned tt w' /\ accumalatedSize w' = 0.
Proof.
  intros Hnew.
  assert (H0 : accumalatedSize w0 = 0).
  { unfold StreamPump.constructor in Hnew.
    destruct (js_or _ _); [discriminate|].
    injection Hnew as <-; reflexivity. }
  destruct (run_returns evs w0) as (w' & E & _ & Hacc & _).
  exists w'. split; [exact E | congruence].
Qed.

Lemma counter_stays_zero_witness :
  exists w',
    run [Start TheController; Emit EvData (VString "ab"); Emit EvData (VString "cd")]
        sample_world = Returned tt w'
    /\ accumalatedSize w' = 0.
Proof.
  apply (counter_stays_zero 16384 sample_sink sample_source sample_world
           [Start TheController; Emit EvData (VString "ab"); Emit EvData (VString "cd")]).
  reflexivity.
Defined.

(** ** Sources without flow-control methods *)

(** C9: on a source without [pause], the adapter's [pause] changes nothing;
    without [resume], [pull] changes nothing; without [destroy], [cancel]
    calls no method of the source and only removes the listeners.  None of
    the three raises, whatever the source has. *)
Theorem missing_capabilities_tolerated w reason :
  (has_pause (stream w) = false -> StreamPump.pause w = Returned tt w)
  /\ (has_resume (stream w) = false -> StreamPump.pull w = Returned tt w)
  /\ (has_destroy (stream w) = false ->
      exists w', StreamPump.cancel reason w = Returned tt w'
                 /\ src_calls (stream w') = src_calls (stream w)
                 /\ sink w' = sink w)
  /\ returns (StreamPump.pause w) = true
  /\ returns (StreamPump.pull w) = true
  /\ returns (StreamPump.cancel reason w) = true.
Proof.
  open_world w. simpl. repeat split.
  - intros ->. reflexivity.
  - intros ->. run_monad. rewrite andb_false_r. reflexivity.
  - intros ->. run_monad. eexists; repeat split.
  - run_monad. destruct has_pause0; reflexivity.
  - run_monad. destruct (readable0 && has_resume0) eqn:E;
      [apply andb_true_iff in E as [_ ->]|]; reflexivity.
  - run_monad. destruct has_destroy0; reflexivity.
Qed.

Lemma missing_capabilities_tolerated_witness :
  StreamPump.pause bare_world = Returned tt bare_world
  /\ StreamPump.pull bare_world = Returned tt bare_world
  /\ exists w', StreamPump.cancel VNull bare_world = Returned tt w'
                /\ src_calls (stream w') = src_calls (stream bare_world)
                /\ sink w' = sink bare_world.
Proof.
  destruct (missing_capabilities_tolerated bare_world VNull) as (P & R & D & _).
  split; [apply P; reflexivity|].
  split; [apply R; reflexivity|].
  apply D; reflexivity.
Defined.

(** ** Scenarios of the design *)

Example scenario_two_chunks_then_end :
  sink_calls (sink (world_of
    (run [Start TheController; Emit EvData (VString "ab");
          Emit EvData (VString "cd"); Emit EvEnd VUndefined] sample_world)))
  = [SEnqueue [x61; x62]; SEnqueue [x63; x64]; SClose].
Proof. reflexivity. Qed.

Example scenario_error_then_spurious_end :
  sink_calls (sink (world_of
    (run [Start TheController; Emit EvData (VString "ab");
          Emit EvError (VError (Error "reset")); Emit EvEnd VUndefined]
         sample_world)))
  = [SEnqueue [x61; x62]; SError (VError (Error "reset"))].
Proof. reflexivity. Qed.

Example scenario_pause_then_pull :
  src_calls (stream (world_of
    (run [Start TheController; Desired (Some 2); Emit EvData (VString "ab");
          Pull; Emit EvData (VString "cd")] sample_world)))
  = [SrcPause; SrcResume; SrcPause].
Proof. reflexivity. Qed.

(** * Further properties of the adapter *)

(** ** The sink's log as a function of the events *)

Lemma quiet_step e w :
  quiet w -> is_start e = false ->
  exists w', step e w = Returned tt w' /\ quiet w'
             /\ sink_calls (sink w') = sink_calls (sink w).
Proof.
  intros Hq He.
  destruct e as [c| |reason|ev arg|d]; try discriminate.
  - open_world w. unfold quiet in *. simpl in Hq. run_monad.
    destruct (readable0 && has_resume0) eqn:E;
      [apply andb_true_iff in E as [_ ->]|]; eexists; repeat split; exact Hq.
  - destruct Hq as [Hq | Hq]; open_world w; simpl in Hq; subst; run_monad;
      destruct has_destroy0; eexists; repeat split;
      solve [left; assumption | right; reflexivity].
  - destruct Hq as [Hq | Hq].
    + unfold step, emit, bind, get.
      match goal with |- context [dispatch ?s arg w] =>
        destruct (dispatch_without_handle s arg w Hq) as (w' & E & H1 & H2 & _) end.
      exists w'. rewrite H2. repeat split; auto. left; exact H1.
    + open_world w. simpl in Hq. subst. run_monad. simpl.
      eexists; repeat split. right; reflexivity.
  - open_world w. unfold quiet in *. simpl in Hq. run_monad.
    eexists; repeat split; exact Hq.
Qed.

Lemma quiet_run evs w :
  quiet w -> forallb (fun e => negb (is_start e)) evs = true ->
  exists w', run evs w = Returned tt w'
             /\ sink_calls (sink w') = sink_calls (sink w).
Proof.
  revert w; induction evs as [|e rest IH]; intros w Hq Hs; simpl.
  - exists w; auto.
  - simpl in Hs. apply andb_true_iff in Hs as [He Hrest].
    apply negb_true_iff in He.
    destruct (quiet_step e w Hq He) as (w1 & E1 & Q1 & S1).
    destruct (IH w1 Q1 Hrest) as (w2 & E2 & S2).
    exists w2. unfold bind. rewrite E1. split; [exact E2 | congruence].
Qed.

(** X1: from an open, subscribed adapter, whatever happens next ([start]
    apart), the calls added to the sink's log are those of [sink_trace]:
    the converted chunks in order up to the first terminal event, failed
    conversion or [cancel], then that event's notification, and nothing
    else. *)
Theorem sink_sees_trace evs w :
  handle_held w = true -> listeners (stream w) = start_listeners ->
  forallb (fun e => negb (is_start e)) evs = true ->
  exists w',
    run evs w = Returned tt w'
    /\ sink_calls (sink w') = sink_calls (sink w) ++ sink_trace evs.
Proof.
  revert w; induction evs as [|e rest IH]; intros w Hc Hl Hs.
  - exists w. simpl. rewrite app_nil_r. auto.
  - simpl in Hs. apply andb_true_iff in Hs as [He Hrest].
    assert (Hdone : forall w1 added,
              step e w = Returned tt w1 -> quiet w1 ->
              sink_calls (sink w1) = sink_calls (sink w) ++ added ->
              sink_trace (e :: rest) = added ->
              exists w', run (e :: rest) w = Returned tt w'
                /\ sink_calls (sink w') = sink_calls (sink w) ++ sink_trace (e :: rest)).
    { intros w1 added E1 Q1 S1 T1.
      destruct (quiet_run rest w1 Q1 Hrest) as (w2 & E2 & S2).
      exists w2. simpl run. unfold bind. rewrite E1, T1. split; [exact E2 | congruence]. }
    assert (Hopen : forall w1 added,
              step e w = Returned tt w1 ->
              handle_held w1 = true -> listeners (stream w1) = start_listeners ->
              sink_calls (sink w1) = sink_calls (sink w) ++ added ->
              sink_trace (e :: rest) = added ++ sink_trace rest ->
              exists w', run (e :: rest) w = Returned tt w'
                /\ sink_calls (sink w') = sink_calls (sink w) ++ sink_trace (e :: rest)).
    { intros w1 added E1 C1 L1 S1 T1.
      destruct (IH w1 C1 L1 Hrest) as (w2 & E2 & S2).
      exists w2. simpl run. unfold bind. rewrite E1, T1. split; [exact E2|].
      rewrite S2, S1, app_assoc. reflexivity. }
    open_world w. simpl in Hc, Hl. subst.
    destruct ctl as [c0|]; [|discriminate].
    destruct e as [c| |reason|ev arg|d]; try discriminate.
    + destruct (readable0 && has_resume0) eqn:E.
      * apply andb_true_iff in E as [-> ->].
        eapply (Hopen _ []);
          [ run_monad; reflexivity | reflexivity | reflexivity
          | simpl; rewrite app_nil_r; reflexivity | reflexivity ].
      * eapply (Hopen _ []);
          [ run_monad; rewrite E; reflexivity | reflexivity | reflexivity
          | simpl; rewrite app_nil_r; reflexivity | reflexivity ].
    + destruct has_destroy0;
        (eapply (Hdone _ []);
          [ run_monad; reflexivity | right; reflexivity
          | simpl; rewrite app_nil_r; reflexivity | reflexivity ]).
    + destruct ev.
      * destruct (to_bytes arg) as [x|bytes] eqn:Eb.
        -- destruct has_destroy0;
             (eapply (Hdone _ [_]);
               [ run_monad; simpl; run_monad; rewrite Eb; reflexivity
               | right; reflexivity | reflexivity
               | simpl; rewrite Eb; reflexivity ]).
        -- destruct (or_zero desiredSize0 - byteLength bytes <=? 0) eqn:El;
             [destruct has_pause0|];
             (eapply (Hopen _ [_]);
               [ run_monad; simpl; run_monad; rewrite Eb, El; reflexivity
               | reflexivity | reflexivity | reflexivity
               | simpl; rewrite Eb; reflexivity ]).
      * eapply (Hdone _ [_]);
          [ run_monad; simpl; run_monad; reflexivity
          | left; reflexivity | reflexivity | reflexivity ].
      * eapply (Hdone _ [_]);
          [ run_monad; simpl; run_monad; reflexivity
          | left; reflexivity | reflexivity | reflexivity ].
      * eapply (Hdone _ [_]);
          [ run_monad; simpl; run_monad; reflexivity
          | left; reflexivity | reflexivity | reflexivity ].
    + eapply (Hopen _ []);
        [ run_monad; reflexivity | reflexivity | reflexivity
        | simpl; rewrite app_nil_r; reflexivity | reflexivity ].
Qed.

Lemma sink_sees_trace_witness :
  exists w',
    run [Emit EvData (VString "ab"); Pull; Emit EvError (VError (Error "reset"));
         Emit EvData (VString "cd"); Cancel VNull; Emit EvClose VUndefined]
        started_world = Returned tt w'
    /\ sink_calls (sink w') =
       sink_calls (sink started_world)
       ++ [SEnqueue [x61; x62]; SError (VError (Error "reset"))].
Proof.
  apply (sink_sees_trace
           [Emit EvData (VString "ab"); Pull; Emit EvError (VError (Error "reset"));
            Emit EvData (VString "cd"); Cancel VNull; Emit EvClose VUndefined]
           started_world); reflexivity.
Defined.

(** X14: termination is absorbing for the sink.  In any world where the
    adapter has no handle, or the source has no listener, no run without a
    [start] adds a call to the sink's log. *)
Theorem terminated_is_absorbing evs w :
  quiet w -> forallb (fun e => negb (is_start e)) evs = true ->
  exists w',
    run evs w = Returned tt w'
    /\ sink_calls (sink w') = sink_calls (sink w)
    /\ quiet w'.
Proof.
  revert w; induction evs as [|e rest IH]; intros w Hq Hs; simpl.
  - exists w; auto.
  - simpl in Hs. apply andb_true_iff in Hs as [He Hrest].
    apply negb_true_iff in He.
    destruct (quiet_step e w Hq He) as (w1 & E1 & Q1 & S1).
    destruct (IH w1 Q1 Hrest) as (w2 & E2 & S2 & Q2).
    exists w2. unfold bind. rewrite E1.
    split; [exact E2|]. split; [congruence | exact Q2].
Qed.

Lemma terminated_is_absorbing_witness :
  exists w',
    run [Emit EvData (VString "cd"); Emit EvClose VUndefined;
         Emit EvError (VError (Error "reset")); Pull; Cancel VNull]
        ended_world = Returned tt w'
    /\ sink_calls (sink w') = sink_calls (sink ended_world)
    /\ quiet w'.
Proof.
  apply (terminated_is_absorbing
           [Emit EvData (VString "cd"); Emit EvClose VUndefined;
            Emit EvError (VError (Error "reset")); Pull; Cancel VNull]
           ended_world).
  - left; reflexivity.
  - reflexivity.
Defined.

(** The world of that witness: the source has ended, the sink has had its
    chunk and its [close], the handle is gone, and the [data], [error] and
    [close] listeners are still registered, so each of the three events
    above does run a handler. *)
Example ended_world_is_subscribed :
  sink_calls (sink ended_world) = [SEnqueue [x61; x62]; SClose]
  /\ handle_held ended_world = false
  /\ listeners (stream ended_world) =
     [mkListener EvData HEnqueue false; mkListener EvError HError true;
      mkListener EvClose HClose true].
Proof. repeat split. Qed.

(** ** Subscribing and unsubscribing *)

Lemma remove_last_app p ls tail :
  existsb p tail = true ->
  remove_last p (ls ++ tail) = ls ++ remove_last p tail.
Proof.
  intros Ht. induction ls as [|l rest IH]; simpl; [reflexivity|].
  rewrite existsb_app, Ht, orb_true_r, IH. reflexivity.
Qed.

Lemma start_then_cancel w c reason :
  exists w',
    run [Start c; Cancel reason] w = Returned tt w'
    /\ listeners (stream w') = listeners (stream w)
    /\ sink w' = sink w
    /\ controller w' = Some c.
Proof.
  open_world w. simpl run. run_monad.
  destruct has_destroy0; eexists; (split; [reflexivity|]); simpl;
    (split; [|split; reflexivity]);
    rewrite <- !app_assoc; simpl;
    repeat (rewrite remove_last_app by reflexivity; simpl);
    apply app_nil_r.
Qed.

(** X2: on any source, whatever listeners it already has, [start] followed
    by [cancel] leaves the listener list exactly as it was and makes no call
    on the sink; the handle stays set. *)
Theorem start_cancel_round_trip w c reason :
  exists w',
    run [Start c; Cancel reason] w = Returned tt w'
    /\ listeners (stream w') = listeners (stream w)
    /\ sink w' = sink w
    /\ handle_held w' = true.
Proof.
  destruct (start_then_cancel w c reason) as (w' & E & L & S & C).
  exists w'. repeat split; try assumption.
  unfold handle_held. rewrite C. reflexivity.
Qed.

(** X4: a second [start] on an open adapter subscribes a second time: every
    chunk that converts is then enqueued twice, and one [cancel] removes
    only one of the two subscriptions. *)
Theorem second_start_duplicates w c chunk bytes reason :
  handle_held w = true -> listeners (stream w) = start_listeners ->
  to_bytes chunk = inr bytes ->
  (exists w', run [Start c; Emit EvData chunk] w = Returned tt w'
     /\ sink_calls (sink w') =
        sink_calls (sink w) ++ [SEnqueue bytes; SEnqueue bytes])
  /\ (exists w', run [Start c; Cancel reason] w = Returned tt w'
        /\ listeners (stream w') = start_listeners
        /\ handle_held w' = true).
Proof.
  intros Hc Hl Hb. split.
  - open_world w. simpl in Hc, Hl. subst.
    destruct (or_zero desiredSize0 - byteLength bytes <=? 0) eqn:El;
      [destruct has_pause0|];
      simpl run; repeat (run_monad; simpl; rewrite ?Hb, ?El);
      eexists; (split; [reflexivity|]); simpl;
      rewrite <- app_assoc; reflexivity.
  - destruct (start_then_cancel w c reason) as (w' & E & L & S & C).
    exists w'. repeat split; try congruence.
    unfold handle_held. rewrite C. reflexivity.
Qed.

Lemma second_start_duplicates_witness :
  (exists w', run [Start TheController; Emit EvData (VString "ab")] started_world
              = Returned tt w'
     /\ sink_calls (sink w') =
        sink_calls (sink started_world) ++ [SEnqueue [x61; x62]; SEnqueue [x61; x62]])
  /\ (exists w', run [Start TheController; Cancel VNull] started_world
                 = Returned tt w'
        /\ listeners (stream w') = start_listeners
        /\ handle_held w' = true).
Proof.
  apply (second_start_duplicates started_world TheController (VString "ab")
           [x61; x62] VNull); reflexivity.
Defined.

Ltac find_mask :=
  unfold within_start; simpl;
  solve [ (exists true + exists false); (exists true + exists false);
          (exists true + exists false); (exists true + exists false);
          reflexivity ].

Lemma within_start_step p e w :
  phase_inv p w -> within_start w -> legal p e = true ->
  exists w', step e w = Returned tt w' /\ within_start w'.
Proof.
  intros Hinv (b1 & b2 & b3 & b4 & Hl) Hlegal.
  destruct e as [c| |reason|ev arg|d].
  - destruct p; try discriminate. destruct Hinv as (_ & Hnil & _).
    open_world w. simpl in Hl, Hnil. subst. run_monad.
    eexists; split; [reflexivity|]. find_mask.
  - open_world w. simpl in Hl. subst. run_monad.
    destruct (readable0 && has_resume0) eqn:E;
      [apply andb_true_iff in E as [_ ->]|];
      (eexists; split; [reflexivity|]); exists b1, b2, b3, b4; reflexivity.
  - open_world w. simpl in Hl. subst. run_monad.
    destruct has_destroy0, b1, b2, b3, b4;
      (eexists; split; [reflexivity|]); find_mask.
  - open_world w. simpl in Hl. subst.
    destruct ev, ctl as [c0|], b1, b2, b3, b4;
      run_monad; simpl; run_monad;
      try (eexists; split; [reflexivity|]; find_mask);
      destruct (to_bytes arg) as [x|bytes];
      try (destruct has_destroy0; (eexists; split; [reflexivity|]); find_mask);
      (destruct (_ <=? 0); [destruct has_pause0|]);
      (eexists; split; [reflexivity|]); find_mask.
  - open_world w. simpl in Hl. subst. run_monad.
    (eexists; split; [reflexivity|]); exists b1, b2, b3, b4; reflexivity.
Qed.

Lemma within_start_run evs p w :
  phase_inv p w -> within_start w -> legal_run p evs = true ->
  exists w', run evs w = Returned tt w' /\ within_start w'.
Proof.
  revert p w; induction evs as [|e rest IH]; intros p w Hinv Hw Hlegal; simpl.
  - exists w; auto.
  - simpl in Hlegal. apply andb_true_iff in Hlegal as [He Hrest].
    destruct (step_phase_inv p e w Hinv He) as (w1 & E1 & Hinv1).
    destruct (within_start_step p e w Hinv Hw He) as (w1' & E1' & Hw1).
    rewrite E1 in E1'. injection E1' as <-.
    unfold bind. rewrite E1. apply (IH _ w1 Hinv1 Hw1 Hrest).
Qed.

Lemma cancel_clears reason w :
  within_start w ->
  exists w', StreamPump.cancel reason w = Returned tt w'
             /\ listeners (stream w') = [].
Proof.
  intros (b1 & b2 & b3 & b4 & Hl). open_world w. simpl in Hl. subst.
  run_monad.
  destruct has_destroy0, b1, b2, b3, b4; eexists; split; reflexivity.
Qed.

(** X3: whatever happened to an adapter that was started at most once,
    [cancel] leaves the source without any listener of the adapter. *)
Theorem cancel_releases_source d k s w0 evs reason :
  StreamPump.constructor d k s = inr w0 -> pristine s k ->
  legal_run Idle evs = true ->
  exists w',
    run (evs ++ [Cancel reason]) w0 = Returned tt w'
    /\ listeners (stream w') = [].
Proof.
  intros Hnew Hp Hlegal.
  destruct (constructor_idle d k s w0 Hnew Hp) as [_ Hidle].
  assert (H0 : within_start w0).
  { destruct Hidle as (_ & Hl & _). exists false, false, false, false. exact Hl. }
  destruct (within_start_run evs Idle w0 Hidle H0 Hlegal) as (w1 & E1 & Hw1).
  destruct (cancel_clears reason w1 Hw1) as (w2 & E2 & L2).
  exists w2. rewrite run_app, E1. simpl. unfold bind.
  change (step (Cancel reason) w1) with (StreamPump.cancel reason w1).
  rewrite E2. auto.
Qed.

Lemma cancel_releases_source_witness :
  exists w',
    run ([Start TheController; Emit EvData (VString "ab"); Emit EvEnd VUndefined]
         ++ [Cancel VNull]) sample_world = Returned tt w'
    /\ listeners (stream w') = [].
Proof.
  apply (cancel_releases_source 16384 sample_sink sample_source sample_world
           [Start TheController; Emit EvData (VString "ab"); Emit EvEnd VUndefined]
           VNull).
  - reflexivity.
  - split; reflexivity.
  - reflexivity.
Defined.

(** ** Listeners left after the source has finished *)

Lemma natural_step fe fn fc e w :
  listeners (stream w) = kept true (negb fe) (negb fn) (negb fc) ->
  handle_held w = negb (fe || fn || fc) ->
  source_event e = true -> chunk_ok e = true ->
  exists w',
    step e w = Returned tt w'
    /\ listeners (stream w') =
       kept true (negb (fe || fired EvError [e])) (negb (fn || fired EvEnd [e]))
            (negb (fc || fired EvClose [e]))
    /\ handle_held w' =
       negb ((fe || fired EvError [e]) || (fn || fired EvEnd [e])
             || (fc || fired EvClose [e])).
Proof.
  intros Hl Hc Hs Hok. open_world w. simpl in Hl, Hc. subst.
  destruct e as [c| |reason|ev arg|d]; try discriminate.
  - run_monad.
    destruct (readable0 && has_resume0) eqn:E;
      [apply andb_true_iff in E as [_ ->]|];
      (eexists; (split; [reflexivity|]); simpl; rewrite !orb_false_r;
       split; [reflexivity | exact Hc]).
  - destruct ev.
    + simpl in Hok. unfold convertible in Hok.
      destruct (to_bytes arg) as [x|bytes] eqn:Eb; [discriminate|].
      destruct fe, fn, fc, ctl as [c0|]; try discriminate Hc;
        run_monad; simpl; run_monad; rewrite ?Eb;
        try (eexists; split; [reflexivity|]; split; reflexivity);
        (destruct (_ <=? 0); [destruct has_pause0|]);
        eexists; (split; [reflexivity|]); split; reflexivity.
    + destruct fe, fn, fc, ctl as [c0|]; try discriminate Hc;
        run_monad; simpl; run_monad;
        eexists; (split; [reflexivity|]); split; reflexivity.
    + destruct fe, fn, fc, ctl as [c0|]; try discriminate Hc;
        run_monad; simpl; run_monad;
        eexists; (split; [reflexivity|]); split; reflexivity.
    + destruct fe, fn, fc, ctl as [c0|]; try discriminate Hc;
        run_monad; simpl; run_monad;
        eexists; (split; [reflexivity|]); split; reflexivity.
  - run_monad. eexists; (split; [reflexivity|]); simpl; rewrite !orb_false_r;
      split; [reflexivity | exact Hc].
Qed.

Lemma fired_cons ev e rest :
  fired ev (e :: rest) = fired ev [e] || fired ev rest.
Proof. unfold fired. simpl. rewrite orb_false_r. reflexivity. Qed.

Lemma natural_run evs fe fn fc w :
  listeners (stream w) = kept true (negb fe) (negb fn) (negb fc) ->
  handle_held w = negb (fe || fn || fc) ->
  forallb source_event evs = true -> forallb chunk_ok evs = true ->
  exists w',
    run evs w = Returned tt w'
    /\ listeners (stream w') =
       kept true (negb (fe || fired EvError evs)) (negb (fn || fired EvEnd evs))
            (negb (fc || fired EvClose evs))
    /\ handle_held w' =
       negb ((fe || fired EvError evs) || (fn || fired EvEnd evs)
             || (fc || fired EvClose evs)).
Proof.
  revert fe fn fc w; induction evs as [|e rest IH]; intros fe fn fc w Hl Hc Hs Hok.
  - exists w. simpl. rewrite !orb_false_r. auto.
  - simpl in Hs, Hok.
    apply andb_true_iff in Hs as [He Hrest].
    apply andb_true_iff in Hok as [Hoke Hokrest].
    destruct (natural_step fe fn fc e w Hl Hc He Hoke) as (w1 & E1 & L1 & C1).
    destruct (IH _ _ _ w1 L1 C1 Hrest Hokrest) as (w2 & E2 & L2 & C2).
    exists w2. simpl run. unfold bind. rewrite E1.
    split; [exact E2|].
    rewrite L2, C2, !(fired_cons _ e rest), !orb_assoc. split; reflexivity.
Qed.

(** X7: when the source finishes by itself (no [cancel], every chunk
    converts), the adapter stays subscribed: the [data] listener is never
    removed, and each of the three one-shot listeners is removed exactly
    when its own event has fired.  The handle is cleared as soon as one of
    them has. *)
Theorem natural_end_keeps_data_listener evs w :
  handle_held w = true -> listeners (stream w) = start_listeners ->
  forallb source_event evs = true -> forallb chunk_ok evs = true ->
  exists w',
    run evs w = Returned tt w'
    /\ listeners (stream w') =
       kept true (negb (fired EvError evs)) (negb (fired EvEnd evs))
            (negb (fired EvClose evs))
    /\ handle_held w' =
       negb (fired EvError evs || fired EvEnd evs || fired EvClose evs).
Proof.
  intros Hc Hl Hs Hok.
  apply (natural_run evs false false false w); assumption.
Qed.

Lemma natural_end_keeps_data_listener_witness :
  exists w',
    run [Emit EvData (VString "ab"); Emit EvEnd VUndefined; Emit EvClose VUndefined]
        started_world = Returned tt w'
    /\ listeners (stream w') =
       [mkListener EvData HEnqueue false; mkListener EvError HError true]
    /\ handle_held w' = false.
Proof.
  apply (natural_end_keeps_data_listener
           [Emit EvData (VString "ab"); Emit EvEnd VUndefined; Emit EvClose VUndefined]
           started_world); reflexivity.
Defined.

(** ** What the adapter never does to the source *)

Lemma count_pause_app a b :
  count_pause (a ++ b) = (count_pause a + count_pause b)%nat.
Proof. unfold count_pause. rewrite filter_app, length_app. reflexivity. Qed.

Lemma count_resume_app a b :
  count_resume (a ++ b) = (count_resume a + count_resume b)%nat.
Proof. unfold count_resume. rewrite filter_app, length_app. reflexivity. Qed.

Lemma count_enqueue_app a b :
  count_enqueue (a ++ b) = (count_enqueue a + count_enqueue b)%nat.
Proof. unfold count_enqueue. rewrite filter_app, length_app. reflexivity. Qed.

Lemma adds_refl w : adds w w [] [].
Proof. unfold adds. rewrite !app_nil_r. auto. Qed.

Lemma adds_trans w1 w2 w3 a1 b1 a2 b2 :
  adds w1 w2 a1 b1 -> adds w2 w3 a2 b2 -> adds w1 w3 (a1 ++ a2) (b1 ++ b2).
Proof.
  unfold adds. intros [H1 H2] [H3 H4]. rewrite H3, H4, H1, H2, !app_assoc. auto.
Qed.

Ltac fin_adds :=
  unfold adds; cbn; rewrite ?app_nil_r; repeat split; auto with arith.

Lemma handler_adds h arg w :
  exists w' a b,
    call_handler h arg w = Returned tt w' /\ adds w w' a b
    /\ (count_pause a <= count_enqueue b)%nat /\ count_resume a = 0%nat.
Proof.
  open_world w. unfold adds. destruct h; run_monad.
  - destruct ctl; [|eexists; exists [], []; (split; [reflexivity|]); fin_adds].
    destruct (to_bytes arg) as [e|bytes].
    + destruct has_destroy0.
      * eexists; exists [SrcDestroy VUndefined], [SError (VError (Error StreamPump.conversion_message))]; (split; [reflexivity|]); fin_adds.
      * eexists; exists [], [SError (VError (Error StreamPump.conversion_message))]; (split; [reflexivity|]); fin_adds.
    + destruct (_ <=? 0); [destruct has_pause0|].
      * eexists; exists [SrcPause], [SEnqueue bytes]; (split; [reflexivity|]); fin_adds.
      * eexists; exists [], [SEnqueue bytes]; (split; [reflexivity|]); fin_adds.
      * eexists; exists [], [SEnqueue bytes]; (split; [reflexivity|]); fin_adds.
  - destruct ctl.
    + eexists; exists [], [SError arg]; (split; [reflexivity|]); fin_adds.
    + eexists; exists [], []; (split; [reflexivity|]); fin_adds.
  - destruct ctl.
    + eexists; exists [], [SClose]; (split; [reflexivity|]); fin_adds.
    + eexists; exists [], []; (split; [reflexivity|]); fin_adds.
Qed.

Lemma dispatch_adds snapshot arg w :
  exists w' a b,
    dispatch snapshot arg w = Returned tt w' /\ adds w w' a b
    /\ (count_pause a <= count_enqueue b)%nat /\ count_resume a = 0%nat.
Proof.
  revert w; induction snapshot as [|l rest IH]; intros w; simpl.
  - exists w, [], []. split; [reflexivity|]. split; [apply adds_refl|auto].
  - unfold bind at 1.
    set (w1 := world_of ((if l_once l
        then update_stream (fun s => set_listeners (remove_last (listener_eqb l) (listeners s)) s)
        else ret tt) w)).
    assert (H1 : (if l_once l
        then update_stream (fun s => set_listeners (remove_last (listener_eqb l) (listeners s)) s)
        else ret tt) w = Returned tt w1 /\ adds w w1 [] []).
    { subst w1. destruct (l_once l); simpl; split; try reflexivity;
        open_world w; unfold adds; simpl; rewrite !app_nil_r; auto. }
    destruct H1 as [-> A1].
    unfold bind at 1.
    destruct (handler_adds (l_handler l) arg w1) as (w2 & a2 & b2 & -> & A2 & P2 & R2).
    destruct (IH w2) as (w3 & a3 & b3 & -> & A3 & P3 & R3).
    exists w3, (a2 ++ a3), (b2 ++ b3). split; [reflexivity|].
    split; [apply (adds_trans w w1 w3 [] [] (a2 ++ a3) (b2 ++ b3) A1);
            apply (adds_trans w1 w2 w3); assumption|].
    rewrite count_pause_app, count_enqueue_app, count_resume_app. lia.
Qed.

Lemma step_adds e w :
  exists w' a b,
    step e w = Returned tt w' /\ adds w w' a b
    /\ (count_pause a <= count_enqueue b)%nat
    /\ (count_resume a <= count_pull [e])%nat.
Proof.
  destruct e as [c| |reason|ev arg|d].
  - open_world w. run_monad.
    eexists; exists [], []; (split; [reflexivity|]); fin_adds.
  - open_world w. run_monad. unfold adds.
    destruct (readable0 && has_resume0) eqn:E.
    + apply andb_true_iff in E as [_ ->].
      eexists; exists [SrcResume], []; (split; [reflexivity|]); fin_adds.
    + eexists; exists [], []; (split; [reflexivity|]); fin_adds.
  - open_world w. run_monad. unfold adds. destruct has_destroy0.
    + eexists; exists [SrcDestroy reason], []; (split; [reflexivity|]); fin_adds.
    + eexists; exists [], []; (split; [reflexivity|]); fin_adds.
  - unfold step, emit, bind, get.
    match goal with |- context [dispatch ?s arg w] =>
      destruct (dispatch_adds s arg w) as (w' & a & b & E & A & P & R) end.
    exists w', a, b. rewrite R. repeat split; try assumption; try apply A. lia.
  - open_world w. run_monad.
    eexists; exists [], []; (split; [reflexivity|]); fin_adds.
Qed.

Lemma count_pull_cons e rest :
  count_pull (e :: rest) = (count_pull [e] + count_pull rest)%nat.
Proof. unfold count_pull. simpl. destruct e; simpl; reflexivity. Qed.

Lemma run_adds evs w :
  exists w' a b,
    run evs w = Returned tt w' /\ adds w w' a b
    /\ (count_pause a <= count_enqueue b)%nat
    /\ (count_resume a <= count_pull evs)%nat.
Proof.
  revert w; induction evs as [|e rest IH]; intros w.
  - exists w, [], []. split; [reflexivity|]. split; [apply adds_refl|auto].
  - destruct (step_adds e w) as (w1 & a1 & b1 & E1 & A1 & P1 & R1).
    destruct (IH w1) as (w2 & a2 & b2 & E2 & A2 & P2 & R2).
    exists w2, (a1 ++ a2), (b1 ++ b2). simpl run. unfold bind. rewrite E1.
    split; [exact E2|]. split; [apply (adds_trans w w1 w2); assumption|].
    rewrite count_pause_app, count_enqueue_app, count_resume_app, count_pull_cons.
    lia.
Qed.

(** X5: in any world and any run, the two logs only grow, and the source
    is paused at most once per chunk handed to the sink: the adapter never
    pauses without having just enqueued. *)
Theorem pauses_follow_enqueues evs w :
  exists w' to_source to_sink,
    run evs w = Returned tt w'
    /\ src_calls (stream w') = src_calls (stream w) ++ to_source
    /\ sink_calls (sink w') = sink_calls (sink w) ++ to_sink
    /\ (count_pause to_source <= count_enqueue to_sink)%nat.
Proof.
  destruct (run_adds evs w) as (w' & a & b & E & [A1 A2] & P & _).
  exists w', a, b. auto.
Qed.

(** X6: in any world and any run, the adapter calls the source's [resume]
    at most once per [pull]: [start], [cancel] and the handlers of the
    source's events never call it.  (What the source does to itself when a
    listener is added is its own affair and is not a call of the
    adapter.) *)
Theorem resumes_follow_pulls evs w :
  exists w' to_source,
    run evs w = Returned tt w'
    /\ src_calls (stream w') = src_calls (stream w) ++ to_source
    /\ (count_resume to_source <= count_pull evs)%nat.
Proof.
  destruct (run_adds evs w) as (w' & a & b & E & [A1 A2] & _ & R).
  exists w', a. auto.
Qed.

(** ** No exception, and a fixed high-water mark *)

(** X8: no sequence of calls and source events makes the adapter throw,
    whatever the chunks and whichever of [pause], [resume] and [destroy]
    the source lacks: the failed conversion is caught and every optional
    method is guarded. *)
Theorem adapter_never_throws evs w :
  returns (run evs w) = true.
Proof.
  destruct (run_returns evs w) as (w' & E & _). rewrite E. reflexivity.
Qed.

(** X9: an adapter that was constructed has the source's own threshold as
    its high-water mark, and keeps it through every run; the default is
    never used. *)
Theorem highWaterMark_is_source_threshold d k s w0 :
  StreamPump.constructor d k s = inr w0 ->
  exists n,
    readableHighWaterMark s = Some n /\ n <> 0
    /\ forall evs, exists w', run evs w0 = Returned tt w' /\ highWaterMark w' = n.
Proof.
  unfold StreamPump.constructor, js_or. intros Hnew.
  destruct (readableHighWaterMark s) as [n|]; [|discriminate].
  destruct (n =? 0) eqn:E; [discriminate|].
  injection Hnew as <-. apply Z.eqb_neq in E.
  exists n. repeat split; auto.
  intros evs.
  match goal with |- context [run evs ?w] =>
    destruct (run_returns evs w) as (w' & Er & Hh & _) end.
  exists w'. split; [exact Er | exact Hh].
Qed.

Lemma highWaterMark_is_source_threshold_witness :
  exists n,
    readableHighWaterMark sample_source = Some n /\ n <> 0
    /\ forall evs, exists w', run evs sample_world = Returned tt w'
                              /\ highWaterMark w' = n.
Proof.
  apply (highWaterMark_is_source_threshold 16384 sample_sink sample_source
           sample_world). reflexivity.
Defined.

(** * The memory sampler *)

Lemma sample_is_max reading recorded :
  Memory.sample reading recorded = Z.max recorded reading.
Proof.
  unfold Memory.sample. destruct (reading >? recorded) eqn:E.
  - apply Z.gtb_lt in E. lia.
  - rewrite Z.gtb_ltb in E. apply Z.ltb_ge in E. lia.
Qed.

Lemma fold_sample_bounds readings start :
  let final := fold_left (fun recorded reading => Memory.sample reading recorded)
                         readings start in
  start <= final
  /\ (forall r, In r readings -> r <= final)
  /\ (final = start \/ In final readings).
Proof.
  revert start; induction readings as [|r rest IH]; intros start; simpl.
  - repeat split; try lia; auto.
  - specialize (IH (Memory.sample r start)). simpl in IH.
    destruct IH as (H1 & H2 & H3). rewrite sample_is_max in *.
    repeat split.
    + lia.
    + intros x [<- | Hx]; [lia | apply H2, Hx].
    + destruct H3 as [H3 | H3]; [|right; right; exact H3].
      rewrite H3. destruct (Z.max_spec start r) as [[_ ->] | [_ ->]]; auto.
Qed.

(** X10: however many times the sampling callback runs, the recorded
    maximum is never negative, is at least every reading taken, and is one
    of the readings unless none of them was positive, in which case it is
    still 0. *)
Theorem memoryMaxUsage_is_largest_reading readings :
  0 <= Memory.memoryMaxUsage readings
  /\ (forall r, In r readings -> r <= Memory.memoryMaxUsage readings)
  /\ (Memory.memoryMaxUsage readings = 0
      \/ In (Memory.memoryMaxUsage readings) readings).
Proof. apply (fold_sample_bounds readings 0). Qed.

(** * Converting a request *)

(** X11: when the URL parses, a request whose stream has no threshold of
    its own (or a zero one) is converted if and only if its method is [GET]
    or [HEAD]: these get no body, no adapter is built for them; every other
    method fails with the adapter's [ReferenceError]. *)
Theorem convertRequest_without_threshold URL_href d req href :
  URL_href (Convert.url req)
    (String.append "http://"
       (Convert.template (Convert.property "host" (Convert.headers req))))
  = inr href ->
  readableHighWaterMark (Convert.readable_side req) = None
  \/ readableHighWaterMark (Convert.readable_side req) = Some 0 ->
  (Convert.method req = "GET" \/ Convert.method req = "HEAD" ->
   Convert.convertRequest URL_href d req
   = inr (href, Convert.mkRequestInit (Convert.method req)
                  (flat_map Convert.header_calls (Convert.headers req)) None None))
  /\ (Convert.method req <> "GET" -> Convert.method req <> "HEAD" ->
      Convert.convertRequest URL_href d req
      = inl (Convert.Threw (ReferenceError "Stream is not defined"))).
Proof.
  intros Hurl Hs. unfold Convert.convertRequest. rewrite Hurl. split.
  - intros [-> | ->]; reflexivity.
  - intros Hg Hh.
    apply String.eqb_neq in Hg. apply String.eqb_neq in Hh. rewrite Hg, Hh. simpl.
    unfold StreamPump.constructor. destruct Hs as [-> | ->]; reflexivity.
Qed.

Lemma convertRequest_without_threshold_witness :
  (Convert.method Convert.bare_post = "GET" \/ Convert.method Convert.bare_post = "HEAD" ->
   Convert.convertRequest Convert.sample_URL_href 16384 Convert.bare_post
   = inr ("http://localhost:3000/",
          Convert.mkRequestInit "POST"
            (flat_map Convert.header_calls Convert.sample_headers) None None))
  /\ (Convert.method Convert.bare_post <> "GET" ->
      Convert.method Convert.bare_post <> "HEAD" ->
      Convert.convertRequest Convert.sample_URL_href 16384 Convert.bare_post
      = inl (Convert.Threw (ReferenceError "Stream is not defined"))).
Proof.
  apply (convertRequest_without_threshold Convert.sample_URL_href 16384
           Convert.bare_post "http://localhost:3000/").
  - reflexivity.
  - left; reflexivity.
Defined.

(** X12: the body built for a request: on a stream with a positive
    threshold, [new StreamPump(req)] followed by
    [new ReadableStream(pump, pump)] gives an adapter that is started: it
    holds the handle, its four listeners are added after those the stream
    already had, and its high-water mark and the sink's first desired size
    are the stream's threshold. *)
Theorem request_body_is_started_pump d s n :
  readableHighWaterMark s = Some n -> 0 < n ->
  exists pump w,
    StreamPump.constructor d (mkSink None []) s = inr pump
    /\ Convert.new_ReadableStream pump = inr w
    /\ handle_held w = true
    /\ listeners (stream w) = listeners s ++ start_listeners
    /\ highWaterMark w = n
    /\ sink w = mkSink (Some n) [].
Proof.
  intros Hs Hn.
  unfold StreamPump.constructor, js_or. rewrite Hs.
  destruct (n =? 0) eqn:E0; [apply Z.eqb_eq in E0; lia|].
  assert (E1 : (n <? 0) = false) by (apply Z.ltb_ge; lia).
  exists (mkWorld n 0 None s (mkSink None [])).
  unfold Convert.new_ReadableStream. simpl highWaterMark. rewrite E1.
  destruct s as [rh hp hr hd rd ls sc]. simpl in Hs.
  run_monad. eexists. split; [reflexivity|]. split; [reflexivity|]. simpl.
  repeat split. rewrite <- !app_assoc. reflexivity.
Qed.

Lemma request_body_is_started_pump_witness :
  exists pump w,
    StreamPump.constructor 16384 (mkSink None []) sample_source = inr pump
    /\ Convert.new_ReadableStream pump = inr w
    /\ handle_held w = true
    /\ listeners (stream w) = [] ++ start_listeners
    /\ highWaterMark w = 16384
    /\ sink w = mkSink (Some 16384) [].
Proof.
  apply (request_body_is_started_pump 16384 sample_source 16384);
    [reflexivity | lia].
Defined.
